(** * FloatingGallery: drifting photo particles (src/floating-gallery.js)

    A shallow embedding of the [FloatingGallery] class: the per-frame
    position update with edge bounce and pointer/scroll influence, the
    creation of the particles, and the frame-loop control methods
    ([pause], [resume], [destroy]) over an explicit model of the browser
    services the class calls (animation frames, event listeners, the DOM
    tree, [Math.random]).

    JavaScript numbers are kept behind the interface [JsNumber], with two
    implementations: IEEE-754 binary64 (Rocq's primitive floats), which is
    what an engine computes and what the statements about the class are
    made on, and the real numbers, which show what a formula does in exact
    arithmetic. *)

From Stdlib Require Import ZArith NArith QArith Bool List String Lia.
From Stdlib Require Import Floats Reals Lra.
Import ListNotations.

Close Scope Q_scope.
Set Implicit Arguments.
Set Warnings "-inexact-float".

(* ================================================================== *)
(** * Numbers *)

(** The operations on numbers that the class uses. [lit q] is the value of
    the decimal literal [q]; [n_lt] is [<] and yields [false] as soon as an
    operand is not a number. *)
Class JsNumber (num : Type) : Type := {
  lit : Q -> num;
  n_add : num -> num -> num;
  n_sub : num -> num -> num;
  n_mul : num -> num -> num;
  n_div : num -> num -> num;
  n_lt : num -> num -> bool;
  truthy : num -> bool;
  Math_max : num -> num -> num;
  Math_min : num -> num -> num;
  Math_sqrt : num -> num;
  Math_sin : num -> num;
  Math_cos : num -> num;
  Math_PI : num
}.

Declare Scope js_scope.
Delimit Scope js_scope with js.
Notation "a + b" := (n_add a b) : js_scope.
Notation "a - b" := (n_sub a b) : js_scope.
Notation "a * b" := (n_mul a b) : js_scope.
Notation "a / b" := (n_div a b) : js_scope.
Notation "a <? b" := (n_lt a b) (at level 70, no associativity) : js_scope.
Notation "a >? b" := (n_lt b a) (at level 70, no associativity) : js_scope.
Arguments lit {num _} q%_Q.

(** ** Binary64 *)

Module B64.

Definition of_Z (z : Z) : float :=
  match z with
  | Z0 => PrimFloat.zero
  | Zpos _ => PrimFloat.of_uint63 (Uint63.of_Z z)
  | Zneg p => PrimFloat.opp (PrimFloat.of_uint63 (Uint63.of_Z (Zpos p)))
  end.

(** A decimal literal denotes the binary64 nearest to it; the correctly
    rounded quotient of numerator and denominator is that value. *)
Definition literal (q : Q) : float :=
  PrimFloat.div (of_Z (Qnum q)) (of_Z (Zpos (Qden q))).

(** [if (x)]: [0], [-0] and [NaN] are falsy. *)
Definition to_boolean (x : float) : bool :=
  negb (PrimFloat.is_zero x || PrimFloat.is_nan x).

(** [Math.max]: [NaN] if an argument is, and [+0] is larger than [-0]. *)
Definition max (a b : float) : float :=
  if PrimFloat.is_nan a || PrimFloat.is_nan b then PrimFloat.nan
  else if PrimFloat.ltb a b then b
  else if PrimFloat.ltb b a then a
  else if PrimFloat.is_zero a && PrimFloat.get_sign a then b
  else a.

(** [Math.min]: [NaN] if an argument is, and [-0] is smaller than [+0]. *)
Definition min (a b : float) : float :=
  if PrimFloat.is_nan a || PrimFloat.is_nan b then PrimFloat.nan
  else if PrimFloat.ltb a b then a
  else if PrimFloat.ltb b a then b
  else if PrimFloat.is_zero a && PrimFloat.get_sign b then b
  else a.

Definition PI : float := 0x1.921fb54442d18p+1%float.

(** [Math.sin] and [Math.cos] are implementation-approximated, so the
    instance takes them from the engine. *)
Definition number (libm_sin libm_cos : float -> float) : JsNumber float := {|
  lit := literal;
  n_add := PrimFloat.add;
  n_sub := PrimFloat.sub;
  n_mul := PrimFloat.mul;
  n_div := PrimFloat.div;
  n_lt := PrimFloat.ltb;
  truthy := to_boolean;
  Math_max := max;
  Math_min := min;
  Math_sqrt := PrimFloat.sqrt;
  Math_sin := libm_sin;
  Math_cos := libm_cos;
  Math_PI := PI
|}.

(** A small engine for evaluating examples: odd and even Taylor
    polynomials of degree 7 and 6. *)
Definition poly_sin (x : float) : float :=
  let x2 := (x * x)%float in
  (x * (1 - x2 / 6 * (1 - x2 / 20 * (1 - x2 / 42))))%float.

Definition poly_cos (x : float) : float :=
  let x2 := (x * x)%float in
  (1 - x2 / 2 * (1 - x2 / 12 * (1 - x2 / 30)))%float.

(** Classification of a number through its specification value. *)
Definition sf_is_nan (x : spec_float) : bool :=
  match x with S754_nan => true | _ => false end.

Definition sf_is_finite (x : spec_float) : bool :=
  match x with S754_zero _ | S754_finite _ _ _ => true | _ => false end.

(** [lo <= x && x <= hi]. *)
Definition between (lo hi x : float) : bool :=
  PrimFloat.leb lo x && PrimFloat.leb x hi.

Definition sample : JsNumber float := number poly_sin poly_cos.

End B64.

(** ** Real numbers *)

Module Real.

Definition ltb (a b : R) : bool := if Rlt_dec a b then true else false.

Definition to_boolean (x : R) : bool := if Req_dec_T x 0%R then false else true.

#[global] Instance number : JsNumber R := {|
  lit := Q2R;
  n_add := Rplus;
  n_sub := Rminus;
  n_mul := Rmult;
  n_div := Rdiv;
  n_lt := ltb;
  truthy := to_boolean;
  Math_max := Rmax;
  Math_min := Rmin;
  Math_sqrt := sqrt;
  Math_sin := sin;
  Math_cos := cos;
  Math_PI := PI
|}.

End Real.

(* ================================================================== *)
(** * Data model *)

(** The argument of the constructor; [None] is a property that is absent. *)
Module Options.
Record t (num : Type) : Type := {
  images : option (list string);
  count : option nat;
  size : option num;
  opacity : option num;
  blur : option num;
  driftSpeed : option num;
  mouseInfluence : option num;
  mobileScrollInfluence : option num;
  container : option N;
  zIndex : option num
}.

Definition empty (num : Type) : t num :=
  {| images := None; count := None; size := None; opacity := None;
     blur := None; driftSpeed := None; mouseInfluence := None;
     mobileScrollInfluence := None; container := None; zIndex := None |}.
End Options.

(** [this.config]. [count] is a number of particles, a natural number. *)
Module Config.
Record t (num : Type) : Type := {
  images : list string;
  count : nat;
  size : num;
  opacity : num;
  blur : num;
  driftSpeed : num;
  mouseInfluence : num;
  mobileScrollInfluence : num;
  container : N;
  zIndex : num
}.
End Config.

(** An [img] element: its node, its source and the parts of its style that
    the class writes. *)
Module Element.
(** [style.transform]: as created, [translate(-50%, -50%) rotate(r deg)];
    once animated, [translate(x px, y px) translate(-50%, -50%)
    rotate(r deg)]. *)
Inductive transform (num : Type) : Type :=
| Centered (rotate : num)
| Placed (x y rotate : num).

Record t (num : Type) : Type := {
  node : N;
  src : option string;
  width : num;
  height : num;
  opacity : num;
  blur : num;
  transform_of : transform num
}.

Definition set_transform {num} (tr : transform num) (e : t num) : t num :=
  {| node := node e; src := src e; width := width e; height := height e;
     opacity := opacity e; blur := blur e; transform_of := tr |}.

Definition set_opacity {num} (o : num) (e : t num) : t num :=
  {| node := node e; src := src e; width := width e; height := height e;
     opacity := o; blur := blur e; transform_of := transform_of e |}.

Definition set_blur {num} (b : num) (e : t num) : t num :=
  {| node := node e; src := src e; width := width e; height := height e;
     opacity := opacity e; blur := b; transform_of := transform_of e |}.

(** The position at which the element is rendered. *)
Definition rendered {num} (e : t num) : option (num * num) :=
  match transform_of e with
  | Centered _ => None
  | Placed x y _ => Some (x, y)
  end.
End Element.

Module Photo.
Record t (num : Type) : Type := {
  element : Element.t num;
  x : num;
  y : num;
  baseX : num;
  baseY : num;
  velocityX : num;
  velocityY : num;
  size : num;
  rotation : num;
  rotationSpeed : num
}.
End Photo.

Inductive EventType : Type := resize | mousemove | scroll.

(** The function objects that the class hands to the browser, or tries to:
    the three arrow functions created in [init], [setupMouseTracking] and
    [setupScrollTracking], and the method [handleResize] itself. *)
Inductive Callback : Type :=
| ResizeArrow
| MouseMoveArrow
| ScrollArrow
| HandleResizeMethod.

(** The browser: viewport, media query, scroll offset, the values
    [Math.random] is going to return, the animation-frame callbacks and
    their last handle, the event listeners, and the parent of each attached
    node. *)
Module World.
Record t (num : Type) : Type := {
  innerWidth : num;
  innerHeight : num;
  matchesMobile : bool;
  scrollY : num;
  random : nat -> num;
  randomCalls : nat;
  rafHandle : N;
  rafCallbacks : list N;
  windowListeners : list (EventType * Callback);
  documentListeners : list (EventType * Callback);
  body : N;
  nextNode : N;
  parents : list (N * N)
}.

Section Setters.
Context {num : Type}.

Definition set_viewport (width height : num) (mobile : bool) (w : t num) : t num :=
  {| innerWidth := width; innerHeight := height; matchesMobile := mobile;
     scrollY := scrollY w; random := random w; randomCalls := randomCalls w;
     rafHandle := rafHandle w; rafCallbacks := rafCallbacks w;
     windowListeners := windowListeners w;
     documentListeners := documentListeners w;
     body := body w; nextNode := nextNode w; parents := parents w |}.

Definition set_scrollY (v : num) (w : t num) : t num :=
  {| innerWidth := innerWidth w; innerHeight := innerHeight w;
     matchesMobile := matchesMobile w;
     scrollY := v; random := random w; randomCalls := randomCalls w;
     rafHandle := rafHandle w; rafCallbacks := rafCallbacks w;
     windowListeners := windowListeners w;
     documentListeners := documentListeners w;
     body := body w; nextNode := nextNode w; parents := parents w |}.

Definition set_randomCalls (n : nat) (w : t num) : t num :=
  {| innerWidth := innerWidth w; innerHeight := innerHeight w;
     matchesMobile := matchesMobile w;
     scrollY := scrollY w; random := random w; randomCalls := n;
     rafHandle := rafHandle w; rafCallbacks := rafCallbacks w;
     windowListeners := windowListeners w;
     documentListeners := documentListeners w;
     body := body w; nextNode := nextNode w; parents := parents w |}.

Definition set_raf (handle : N) (callbacks : list N) (w : t num) : t num :=
  {| innerWidth := innerWidth w; innerHeight := innerHeight w;
     matchesMobile := matchesMobile w;
     scrollY := scrollY w; random := random w; randomCalls := randomCalls w;
     rafHandle := handle; rafCallbacks := callbacks;
     windowListeners := windowListeners w;
     documentListeners := documentListeners w;
     body := body w; nextNode := nextNode w; parents := parents w |}.

Definition set_windowListeners (l : list (EventType * Callback)) (w : t num) : t num :=
  {| innerWidth := innerWidth w; innerHeight := innerHeight w;
     matchesMobile := matchesMobile w;
     scrollY := scrollY w; random := random w; randomCalls := randomCalls w;
     rafHandle := rafHandle w; rafCallbacks := rafCallbacks w;
     windowListeners := l;
     documentListeners := documentListeners w;
     body := body w; nextNode := nextNode w; parents := parents w |}.

Definition set_documentListeners (l : list (EventType * Callback)) (w : t num) : t num :=
  {| innerWidth := innerWidth w; innerHeight := innerHeight w;
     matchesMobile := matchesMobile w;
     scrollY := scrollY w; random := random w; randomCalls := randomCalls w;
     rafHandle := rafHandle w; rafCallbacks := rafCallbacks w;
     windowListeners := windowListeners w;
     documentListeners := l;
     body := body w; nextNode := nextNode w; parents := parents w |}.

Definition set_dom (next : N) (edges : list (N * N)) (w : t num) : t num :=
  {| innerWidth := innerWidth w; innerHeight := innerHeight w;
     matchesMobile := matchesMobile w;
     scrollY := scrollY w; random := random w; randomCalls := randomCalls w;
     rafHandle := rafHandle w; rafCallbacks := rafCallbacks w;
     windowListeners := windowListeners w;
     documentListeners := documentListeners w;
     body := body w; nextNode := next; parents := edges |}.
End Setters.
End World.

(** The fields of a [FloatingGallery] object. [rafId] is [null] or a
    handle; [galleryContainer] is absent until [init] creates it. *)
Module Gallery.
Record t (num : Type) : Type := {
  config : Config.t num;
  isMobile : bool;
  mouseX : num;
  mouseY : num;
  scrollY : num;
  photos : list (Photo.t num);
  rafId : option N;
  galleryContainer : option N
}.

Section Setters.
Context {num : Type}.

Definition set_config (c : Config.t num) (g : t num) : t num :=
  {| config := c; isMobile := isMobile g; mouseX := mouseX g;
     mouseY := mouseY g; scrollY := scrollY g; photos := photos g;
     rafId := rafId g; galleryContainer := galleryContainer g |}.

Definition set_isMobile (b : bool) (g : t num) : t num :=
  {| config := config g; isMobile := b; mouseX := mouseX g;
     mouseY := mouseY g; scrollY := scrollY g; photos := photos g;
     rafId := rafId g; galleryContainer := galleryContainer g |}.

Definition set_mouse (mx my : num) (g : t num) : t num :=
  {| config := config g; isMobile := isMobile g; mouseX := mx;
     mouseY := my; scrollY := scrollY g; photos := photos g;
     rafId := rafId g; galleryContainer := galleryContainer g |}.

Definition set_scrollY (v : num) (g : t num) : t num :=
  {| config := config g; isMobile := isMobile g; mouseX := mouseX g;
     mouseY := mouseY g; scrollY := v; photos := photos g;
     rafId := rafId g; galleryContainer := galleryContainer g |}.

Definition set_photos (l : list (Photo.t num)) (g : t num) : t num :=
  {| config := config g; isMobile := isMobile g; mouseX := mouseX g;
     mouseY := mouseY g; scrollY := scrollY g; photos := l;
     rafId := rafId g; galleryContainer := galleryContainer g |}.

Definition set_rafId (r : option N) (g : t num) : t num :=
  {| config := config g; isMobile := isMobile g; mouseX := mouseX g;
     mouseY := mouseY g; scrollY := scrollY g; photos := photos g;
     rafId := r; galleryContainer := galleryContainer g |}.

Definition set_galleryContainer (c : option N) (g : t num) : t num :=
  {| config := config g; isMobile := isMobile g; mouseX := mouseX g;
     mouseY := mouseY g; scrollY := scrollY g; photos := photos g;
     rafId := rafId g; galleryContainer := c |}.
End Setters.
End Gallery.

(* ================================================================== *)
(** * Browser services *)

Definition EventType_eqb (a b : EventType) : bool :=
  match a, b with
  | resize, resize | mousemove, mousemove | scroll, scroll => true
  | _, _ => false
  end.

(** Identity of function objects. *)
Definition Callback_eqb (a b : Callback) : bool :=
  match a, b with
  | ResizeArrow, ResizeArrow
  | MouseMoveArrow, MouseMoveArrow
  | ScrollArrow, ScrollArrow
  | HandleResizeMethod, HandleResizeMethod => true
  | _, _ => false
  end.

Definition same_listener (a b : EventType * Callback) : bool :=
  EventType_eqb (fst a) (fst b) && Callback_eqb (snd a) (snd b).

(** A listener that is already registered is not registered twice. *)
Definition addEventListener (ty : EventType) (cb : Callback)
    (l : list (EventType * Callback)) : list (EventType * Callback) :=
  if existsb (same_listener (ty, cb)) l then l else l ++ [(ty, cb)].

(** Removes the listener of that type with that very function object, if
    there is one. *)
Definition removeEventListener (ty : EventType) (cb : Callback)
    (l : list (EventType * Callback)) : list (EventType * Callback) :=
  filter (fun e => negb (same_listener (ty, cb) e)) l.

Definition detach (child : N) (edges : list (N * N)) : list (N * N) :=
  filter (fun e => negb (N.eqb (fst e) child)) edges.

Fixpoint parent_of (edges : list (N * N)) (child : N) : option N :=
  match edges with
  | [] => None
  | (c, p) :: rest => if N.eqb c child then Some p else parent_of rest child
  end.

(** [connected fuel edges root n]: [n] is [root] or below it, looking up at
    most [fuel] parents. *)
Fixpoint connected (fuel : nat) (edges : list (N * N)) (root n : N) : bool :=
  N.eqb n root ||
  match fuel with
  | O => false
  | S fuel' =>
      match parent_of edges n with
      | Some p => connected fuel' edges root p
      | None => false
      end
  end.

Section Browser.
Context {num : Type}.

Definition Math_random (w : World.t num) : num * World.t num :=
  (World.random w (World.randomCalls w),
   World.set_randomCalls (S (World.randomCalls w)) w).

Definition createElement (w : World.t num) : N * World.t num :=
  (World.nextNode w,
   World.set_dom (N.succ (World.nextNode w)) (World.parents w) w).

Definition appendChild (parent child : N) (w : World.t num) : World.t num :=
  World.set_dom (World.nextNode w)
                ((child, parent) :: detach child (World.parents w)) w.

Definition remove (child : N) (w : World.t num) : World.t num :=
  World.set_dom (World.nextNode w) (detach child (World.parents w)) w.

(** Handles count up from the last one, so a handle is never [0]. *)
Definition requestAnimationFrame (w : World.t num) : N * World.t num :=
  let handle := N.succ (World.rafHandle w) in
  (handle, World.set_raf handle (World.rafCallbacks w ++ [handle]) w).

Definition cancelAnimationFrame (handle : N) (w : World.t num) : World.t num :=
  World.set_raf (World.rafHandle w)
                (filter (fun h => negb (N.eqb h handle)) (World.rafCallbacks w)) w.

(** Whether a node is in the document, which hangs below [body]. *)
Definition in_document (w : World.t num) (n : N) : bool :=
  connected (List.length (World.parents w)) (World.parents w) (World.body w) n.
End Browser.

(** [if (this.rafId)]: [null] and [0] are falsy. *)
Definition handle_truthy (r : option N) : bool :=
  match r with
  | Some h => negb (N.eqb h 0)
  | None => false
  end.

(** [options.x || d]. *)
Definition or_default {A : Type} (is_truthy : A -> bool) (o : option A) (d : A) : A :=
  match o with
  | Some v => if is_truthy v then v else d
  | None => d
  end.

(* ================================================================== *)
(** * The class *)

Section FloatingGallery.
Context {num : Type} {JN : JsNumber num}.
Local Open Scope js_scope.

(** The number that an array index or a length is. *)
Definition num_of_nat (n : nat) : num := lit (inject_Z (Z.of_nat n)).

(** [Math.pow(v, 2)]. *)
Definition Math_pow_2 (v : num) : num := v * v.

Definition isInCenterZone (w : World.t num) (x y radius : num) : bool :=
  let centerX := World.innerWidth w / lit 2 in
  let centerY := World.innerHeight w / lit 2 in
  let distance := Math_sqrt (Math_pow_2 (x - centerX) + Math_pow_2 (y - centerY)) in
  distance <? radius.

(** The [do ... while] of [createPhoto], which draws a position until one
    is outside the centre zone; [None] when [fuel] draws were all inside. *)
Fixpoint pick_position (fuel : nat) (w : World.t num)
    : option (num * num * World.t num) :=
  match fuel with
  | O => None
  | S fuel' =>
      let (r1, w1) := Math_random w in
      let x := lit 100 + r1 * (World.innerWidth w1 - lit 100 - lit 100) in
      let (r2, w2) := Math_random w1 in
      let y := lit 100 + r2 * (World.innerHeight w2 - lit 100 - lit 100) in
      if isInCenterZone w2 x y (lit 200) then pick_position fuel' w2
      else Some (x, y, w2)
  end.

(** The position proposed from the draws number [c] and [c + 1]. *)
Definition candidate (w : World.t num) (c : nat) : num * num :=
  (lit 100 + World.random w c * (World.innerWidth w - lit 100 - lit 100),
   lit 100 + World.random w (S c) * (World.innerHeight w - lit 100 - lit 100)).

(** Whether that position ends the loop. *)
Definition accepted (w : World.t num) (c : nat) : bool :=
  negb (isInCenterZone w (fst (candidate w c)) (snd (candidate w c)) (lit 200)).

(** [Math.random] never proposes [fuel] centre-zone positions in a row. *)
Definition sampling_completes (fuel : nat) (w : World.t num) : Prop :=
  forall c, exists j, (j < fuel)%nat /\ accepted w (c + 2 * j)%nat = true.

Definition createPhoto (fuel : nat) (w : World.t num) (g : Gallery.t num)
    (index : nat) : option (Photo.t num * World.t num) :=
  let cfg := Gallery.config g in
  let (img, w) := createElement w in
  let src := nth_error (Config.images cfg)
                       (index mod List.length (Config.images cfg)) in
  match pick_position fuel w with
  | None => None
  | Some (x, y, w) =>
      let (r, w) := Math_random w in
      let angle := r * Math_PI * lit 2 in
      let (r, w) := Math_random w in
      let speed := Config.driftSpeed cfg * (lit 0.5 + r * lit 0.5) in
      let (r, w) := Math_random w in
      let size := Config.size cfg * (lit 0.8 + r * lit 0.4) in
      let (r, w) := Math_random w in
      let rotation := r * lit 20 - lit 10 in
      let (r, w) := Math_random w in
      let rotationSpeed := (r - lit 0.5) * lit 0.2 in
      Some ({| Photo.element :=
                 {| Element.node := img;
                    Element.src := src;
                    Element.width := size;
                    Element.height := size;
                    Element.opacity := Config.opacity cfg;
                    Element.blur := Config.blur cfg;
                    Element.transform_of := Element.Centered rotation |};
               Photo.x := x;
               Photo.y := y;
               Photo.baseX := x;
               Photo.baseY := y;
               Photo.velocityX := Math_cos angle * speed;
               Photo.velocityY := Math_sin angle * speed;
               Photo.size := size;
               Photo.rotation := rotation;
               Photo.rotationSpeed := rotationSpeed |}, w)
  end.

(** The [for] loop of [createPhotos], with [todo] iterations left and
    the counter at [i]. *)
Fixpoint createPhotos_loop (fuel todo i : nat) (w : World.t num)
    (g : Gallery.t num) : option (World.t num * Gallery.t num) :=
  match todo with
  | O => Some (w, g)
  | S todo' =>
      match createPhoto fuel w g i with
      | None => None
      | Some (photo, w) =>
          let g := Gallery.set_photos (Gallery.photos g ++ [photo]) g in
          let w := match Gallery.galleryContainer g with
                   | Some c => appendChild c (Element.node (Photo.element photo)) w
                   | None => w
                   end in
          createPhotos_loop fuel todo' (S i) w g
      end
  end.

Definition createPhotos (fuel : nat) (w : World.t num) (g : Gallery.t num)
    : option (World.t num * Gallery.t num) :=
  let imageCount :=
    Nat.min (Config.count (Gallery.config g))
            (List.length (Config.images (Gallery.config g))) in
  createPhotos_loop fuel imageCount 0 w g.

Definition setupMouseTracking (w : World.t num) : World.t num :=
  World.set_documentListeners
    (addEventListener mousemove MouseMoveArrow (World.documentListeners w)) w.

Definition setupScrollTracking (w : World.t num) : World.t num :=
  World.set_windowListeners
    (addEventListener scroll ScrollArrow (World.windowListeners w)) w.

(** ** The frame update *)

Definition margin : num := lit 50.

(** One axis of the edge bounce: the velocity and the coordinate after
    it, for a viewport of extent [dimension]. *)
Definition bounce (dimension velocity base : num) : num * num :=
  if (base <? margin) || (base >? dimension - margin)
  then (velocity * lit (-1),
        Math_max margin (Math_min (dimension - margin) base))
  else (velocity, base).

Definition maxDistance : num := lit 300.

(** Desktop: the rendered position of a particle at [(finalX, finalY)]. *)
Definition mouse_influence (g : Gallery.t num) (finalX finalY : num) : num * num :=
  let dx := finalX - Gallery.mouseX g in
  let dy := finalY - Gallery.mouseY g in
  let distance := Math_sqrt (dx * dx + dy * dy) in
  if distance <? maxDistance then
    let influence := (lit 1 - distance / maxDistance) * lit 30 in
    (finalX + (dx / distance) * influence
              * Config.mouseInfluence (Gallery.config g) * lit 100,
     finalY + (dy / distance) * influence
              * Config.mouseInfluence (Gallery.config g) * lit 100)
  else (finalX, finalY).

(** Mobile: the rendered position of the particle number [index]. *)
Definition scroll_influence (g : Gallery.t num) (index : nat)
    (finalX finalY : num) : num * num :=
  let scrollInfluence :=
    Math_sin (Gallery.scrollY g * lit 0.01 + num_of_nat index) * lit 20 in
  (finalX,
   finalY + scrollInfluence
            * Config.mobileScrollInfluence (Gallery.config g) * lit 100).

(** The body of the [forEach] in [animate]. *)
Definition animate_photo (w : World.t num) (g : Gallery.t num)
    (index : nat) (photo : Photo.t num) : Photo.t num :=
  let baseX := Photo.baseX photo + Photo.velocityX photo in
  let baseY := Photo.baseY photo + Photo.velocityY photo in
  let rotation := Photo.rotation photo + Photo.rotationSpeed photo in
  let (velocityX, baseX) :=
    bounce (World.innerWidth w) (Photo.velocityX photo) baseX in
  let (velocityY, baseY) :=
    bounce (World.innerHeight w) (Photo.velocityY photo) baseY in
  let (finalX, finalY) :=
    if negb (Gallery.isMobile g) then mouse_influence g baseX baseY
    else scroll_influence g index baseX baseY in
  {| Photo.element :=
       Element.set_transform (Element.Placed finalX finalY rotation)
                             (Photo.element photo);
     Photo.x := Photo.x photo;
     Photo.y := Photo.y photo;
     Photo.baseX := baseX;
     Photo.baseY := baseY;
     Photo.velocityX := velocityX;
     Photo.velocityY := velocityY;
     Photo.size := Photo.size photo;
     Photo.rotation := rotation;
     Photo.rotationSpeed := Photo.rotationSpeed photo |}.

Fixpoint forEach_index (f : nat -> Photo.t num -> Photo.t num) (index : nat)
    (l : list (Photo.t num)) : list (Photo.t num) :=
  match l with
  | [] => []
  | photo :: rest => f index photo :: forEach_index f (S index) rest
  end.

Definition animate (w : World.t num) (g : Gallery.t num)
    : World.t num * Gallery.t num :=
  let g := Gallery.set_photos
             (forEach_index (animate_photo w g) 0 (Gallery.photos g)) g in
  let (handle, w) := requestAnimationFrame w in
  (w, Gallery.set_rafId (Some handle) g).

(** ** Construction *)

Definition init (fuel : nat) (w : World.t num) (g : Gallery.t num)
    : option (World.t num * Gallery.t num) :=
  let (div, w) := createElement w in
  let g := Gallery.set_galleryContainer (Some div) g in
  let w := appendChild (Config.container (Gallery.config g)) div w in
  match createPhotos fuel w g with
  | None => None
  | Some (w, g) =>
      let w := if negb (Gallery.isMobile g) then setupMouseTracking w
               else setupScrollTracking w in
      let (w, g) := animate w g in
      let w := World.set_windowListeners
                 (addEventListener resize ResizeArrow (World.windowListeners w)) w in
      Some (w, g)
  end.

Definition nat_truthy (n : nat) : bool := negb (Nat.eqb n 0).

Definition configure (w : World.t num) (options : Options.t num) : Config.t num :=
  {| Config.images := or_default (fun _ => true) (Options.images options) [];
     Config.count := or_default nat_truthy (Options.count options) 6%nat;
     Config.size := or_default truthy (Options.size options) (lit 70);
     Config.opacity := or_default truthy (Options.opacity options) (lit 0.25);
     Config.blur := or_default truthy (Options.blur options) (lit 1);
     Config.driftSpeed := or_default truthy (Options.driftSpeed options) (lit 0.3);
     Config.mouseInfluence :=
       or_default truthy (Options.mouseInfluence options) (lit 0.05);
     Config.mobileScrollInfluence :=
       or_default truthy (Options.mobileScrollInfluence options) (lit 0.02);
     Config.container :=
       or_default (fun _ => true) (Options.container options) (World.body w);
     Config.zIndex := or_default truthy (Options.zIndex options) (lit (-1)) |}.

Definition constructor (fuel : nat) (w : World.t num) (options : Options.t num)
    : option (World.t num * Gallery.t num) :=
  init fuel w
    {| Gallery.config := configure w options;
       Gallery.isMobile := World.matchesMobile w;
       Gallery.mouseX := World.innerWidth w / lit 2;
       Gallery.mouseY := World.innerHeight w / lit 2;
       Gallery.scrollY := lit 0;
       Gallery.photos := [];
       Gallery.rafId := None;
       Gallery.galleryContainer := None |}.

(** ** Resize, teardown and control *)

(** The [forEach] of [handleResize]. *)
Fixpoint reposition (w : World.t num) (l : list (Photo.t num))
    : World.t num * list (Photo.t num) :=
  match l with
  | [] => (w, [])
  | photo :: rest =>
      let (r, w) := Math_random w in
      let baseX := r * World.innerWidth w in
      let (r, w) := Math_random w in
      let baseY := r * World.innerHeight w in
      let (w, rest) := reposition w rest in
      (w, {| Photo.element := Photo.element photo;
             Photo.x := Photo.x photo;
             Photo.y := Photo.y photo;
             Photo.baseX := baseX;
             Photo.baseY := baseY;
             Photo.velocityX := Photo.velocityX photo;
             Photo.velocityY := Photo.velocityY photo;
             Photo.size := Photo.size photo;
             Photo.rotation := Photo.rotation photo;
             Photo.rotationSpeed := Photo.rotationSpeed photo |} :: rest)
  end.

Definition handleResize (w : World.t num) (g : Gallery.t num)
    : World.t num * Gallery.t num :=
  let wasMobile := Gallery.isMobile g in
  let g := Gallery.set_isMobile (World.matchesMobile w) g in
  if negb (Bool.eqb wasMobile (Gallery.isMobile g)) then
    let (w, l) := reposition w (Gallery.photos g) in
    (w, Gallery.set_photos l g)
  else (w, g).

Definition destroy (w : World.t num) (g : Gallery.t num)
    : World.t num * Gallery.t num :=
  let w := match Gallery.rafId g with
           | Some handle =>
               if handle_truthy (Gallery.rafId g)
               then cancelAnimationFrame handle w else w
           | None => w
           end in
  let w := match Gallery.galleryContainer g with
           | Some c => remove c w
           | None => w
           end in
  let w := World.set_windowListeners
             (removeEventListener resize HandleResizeMethod
                                  (World.windowListeners w)) w in
  (w, g).

Definition set_photo_element (e : Element.t num) (photo : Photo.t num) : Photo.t num :=
  {| Photo.element := e;
     Photo.x := Photo.x photo;
     Photo.y := Photo.y photo;
     Photo.baseX := Photo.baseX photo;
     Photo.baseY := Photo.baseY photo;
     Photo.velocityX := Photo.velocityX photo;
     Photo.velocityY := Photo.velocityY photo;
     Photo.size := Photo.size photo;
     Photo.rotation := Photo.rotation photo;
     Photo.rotationSpeed := Photo.rotationSpeed photo |}.

Definition set_config_opacity (o : num) (c : Config.t num) : Config.t num :=
  {| Config.images := Config.images c; Config.count := Config.count c;
     Config.size := Config.size c; Config.opacity := o;
     Config.blur := Config.blur c; Config.driftSpeed := Config.driftSpeed c;
     Config.mouseInfluence := Config.mouseInfluence c;
     Config.mobileScrollInfluence := Config.mobileScrollInfluence c;
     Config.container := Config.container c; Config.zIndex := Config.zIndex c |}.

Definition set_config_blur (b : num) (c : Config.t num) : Config.t num :=
  {| Config.images := Config.images c; Config.count := Config.count c;
     Config.size := Config.size c; Config.opacity := Config.opacity c;
     Config.blur := b; Config.driftSpeed := Config.driftSpeed c;
     Config.mouseInfluence := Config.mouseInfluence c;
     Config.mobileScrollInfluence := Config.mobileScrollInfluence c;
     Config.container := Config.container c; Config.zIndex := Config.zIndex c |}.

Definition updateOpacity (opacity : num) (g : Gallery.t num) : Gallery.t num :=
  let g := Gallery.set_config (set_config_opacity opacity (Gallery.config g)) g in
  Gallery.set_photos
    (map (fun photo =>
            set_photo_element (Element.set_opacity opacity (Photo.element photo)) photo)
         (Gallery.photos g)) g.

Definition updateBlur (blur : num) (g : Gallery.t num) : Gallery.t num :=
  let g := Gallery.set_config (set_config_blur blur (Gallery.config g)) g in
  Gallery.set_photos
    (map (fun photo =>
            set_photo_element (Element.set_blur blur (Photo.element photo)) photo)
         (Gallery.photos g)) g.

Definition pause (w : World.t num) (g : Gallery.t num)
    : World.t num * Gallery.t num :=
  match Gallery.rafId g with
  | Some handle =>
      if handle_truthy (Gallery.rafId g)
      then (cancelAnimationFrame handle w, Gallery.set_rafId None g)
      else (w, g)
  | None => (w, g)
  end.

Definition resume (w : World.t num) (g : Gallery.t num)
    : World.t num * Gallery.t num :=
  if negb (handle_truthy (Gallery.rafId g)) then animate w g else (w, g).

(** ** What happens to a gallery *)

(** What the browser passes to a listener. *)
Inductive Event : Type :=
| ResizeEvent
| MouseEvent (clientX clientY : num)
| ScrollEvent.

(** Calling a function object with an event. [HandleResizeMethod] is
    never registered; called by the browser its [this] would not be the
    gallery, which it leaves as it is. *)
Definition invoke (cb : Callback) (ev : Event) (s : World.t num * Gallery.t num)
    : World.t num * Gallery.t num :=
  let (w, g) := s in
  match cb, ev with
  | ResizeArrow, _ => handleResize w g
  | MouseMoveArrow, MouseEvent clientX clientY =>
      (w, Gallery.set_mouse clientX clientY g)
  | ScrollArrow, _ => (w, Gallery.set_scrollY (World.scrollY w) g)
  | _, _ => (w, g)
  end.

Definition dispatch (listeners : list (EventType * Callback)) (ty : EventType)
    (ev : Event) (s : World.t num * Gallery.t num) : World.t num * Gallery.t num :=
  fold_left (fun s l => if EventType_eqb (fst l) ty then invoke (snd l) ev s else s)
            listeners s.

Inductive Action : Type :=
| AnimationFrame
| WindowResized (width height : num) (mobile : bool)
| MouseMoved (clientX clientY : num)
| Scrolled (scrollY : num)
| Call_pause
| Call_resume
| Call_destroy
| Call_updateOpacity (opacity : num)
| Call_updateBlur (blur : num).

(** A frame: the browser takes the scheduled callbacks, each of which is
    [() => this.animate()], and calls them; what they schedule is for the
    next frame. *)
Definition run_frame (s : World.t num * Gallery.t num)
    : World.t num * Gallery.t num :=
  let (w, g) := s in
  let callbacks := World.rafCallbacks w in
  let w := World.set_raf (World.rafHandle w) [] w in
  fold_left (fun s (_ : N) => animate (fst s) (snd s)) callbacks (w, g).

Definition step (a : Action) (s : World.t num * Gallery.t num)
    : World.t num * Gallery.t num :=
  let (w, g) := s in
  match a with
  | AnimationFrame => run_frame (w, g)
  | WindowResized width height mobile =>
      let w := World.set_viewport width height mobile w in
      dispatch (World.windowListeners w) resize ResizeEvent (w, g)
  | MouseMoved clientX clientY =>
      dispatch (World.documentListeners w) mousemove
               (MouseEvent clientX clientY) (w, g)
  | Scrolled scrollY =>
      let w := World.set_scrollY scrollY w in
      dispatch (World.windowListeners w) scroll ScrollEvent (w, g)
  | Call_pause => pause w g
  | Call_resume => resume w g
  | Call_destroy => destroy w g
  | Call_updateOpacity opacity => (w, updateOpacity opacity g)
  | Call_updateBlur blur => (w, updateBlur blur g)
  end.

Definition run (l : list Action) (s : World.t num * Gallery.t num)
    : World.t num * Gallery.t num :=
  fold_left (fun s a => step a s) l s.
End FloatingGallery.

(** Two states of the browser with the same viewport and the same draws. *)
Definition same_draws {num : Type} (w0 w : World.t num) : Prop :=
  World.innerWidth w = World.innerWidth w0 /\
  World.innerHeight w = World.innerHeight w0 /\
  World.random w = World.random w0.

(** Two states of the browser with the same frame callbacks. *)
Definition same_raf {num : Type} (w w' : World.t num) : Prop :=
  World.rafHandle w' = World.rafHandle w /\
  World.rafCallbacks w' = World.rafCallbacks w.

(** The frame loop is stopped, or it is waiting in the one callback whose
    handle is in [rafId]. *)
Definition one_loop {num : Type} (s : World.t num * Gallery.t num) : Prop :=
  World.rafCallbacks (fst s) = [] \/
  exists h, World.rafCallbacks (fst s) = [h] /\
            Gallery.rafId (snd s) = Some h /\ h <> 0%N.

(** [n] consecutive frame updates. *)
Definition frames {num : Type} {JN : JsNumber num} (n : nat)
    (s : World.t num * Gallery.t num) : World.t num * Gallery.t num :=
  Nat.iter n (fun s => animate (fst s) (snd s)) s.

(** ** Statements about binary64 galleries *)

Module Bounds.
(** [margin <= baseX <= innerWidth - margin], and the same for [baseY],
    with the bounds as the frame update computes them. *)
Definition in_bounds (w : World.t float) (p : Photo.t float) : bool :=
  B64.between 50 (World.innerWidth w - 50) (Photo.baseX p) &&
  B64.between 50 (World.innerHeight w - 50) (Photo.baseY p).

(** The viewport leaves room between the two margins: [innerWidth - 50]
    and [innerHeight - 50] are finite and at least [50]. *)
Definition viewport_fits (w : World.t float) : bool :=
  PrimFloat.leb 50 (World.innerWidth w - 50) &&
  PrimFloat.is_finite (World.innerWidth w - 50) &&
  PrimFloat.leb 50 (World.innerHeight w - 50) &&
  PrimFloat.is_finite (World.innerHeight w - 50).

(** The particle is somewhere, and its velocity is a number. *)
Definition numeric (p : Photo.t float) : bool :=
  PrimFloat.is_finite (Photo.baseX p) &&
  PrimFloat.is_finite (Photo.baseY p) &&
  negb (PrimFloat.is_nan (Photo.velocityX p)) &&
  negb (PrimFloat.is_nan (Photo.velocityY p)).
End Bounds.

(** ** Sample inputs *)

Module Sample.
Local Open Scope float_scope.

(** [Math.random] returning [0.1, 0.9, 0.35, 0.6] over and over. *)
Definition draws (n : nat) : float := nth (n mod 4) [0.1; 0.9; 0.35; 0.6] 0.5.

Definition desktop : World.t float :=
  {| World.innerWidth := 1024; World.innerHeight := 768;
     World.matchesMobile := false; World.scrollY := 0;
     World.random := draws; World.randomCalls := 0;
     World.rafHandle := 0%N; World.rafCallbacks := [];
     World.windowListeners := []; World.documentListeners := [];
     World.body := 1%N; World.nextNode := 2%N; World.parents := [] |}.

(** The same with [Math.random] returning [0.1] every time. *)
Definition steady : World.t float :=
  {| World.innerWidth := 1024; World.innerHeight := 768;
     World.matchesMobile := false; World.scrollY := 0;
     World.random := fun _ => 0.1; World.randomCalls := 0;
     World.rafHandle := 0%N; World.rafCallbacks := [];
     World.windowListeners := []; World.documentListeners := [];
     World.body := 1%N; World.nextNode := 2%N; World.parents := [] |}.

(** A phone held upright, 320 by 568 pixels. *)
Definition phone : World.t float :=
  World.set_viewport 320 568 true steady.

(** A viewport 80 pixels wide. *)
Definition narrow : World.t float :=
  World.set_viewport 80 600 true desktop.

Definition abc : Options.t float :=
  {| Options.images := Some ["a"; "b"; "c"]%string;
     Options.count := Some 3%nat;
     Options.size := None; Options.opacity := None; Options.blur := None;
     Options.driftSpeed := None; Options.mouseInfluence := None;
     Options.mobileScrollInfluence := None;
     Options.container := None; Options.zIndex := None |}.

(** Three particles asked for, no image given. *)
Definition no_images : Options.t float :=
  {| Options.images := Some [];
     Options.count := Some 3%nat;
     Options.size := None; Options.opacity := None; Options.blur := None;
     Options.driftSpeed := None; Options.mouseInfluence := None;
     Options.mobileScrollInfluence := None;
     Options.container := None; Options.zIndex := None |}.


Definition img : Element.t float :=
  {| Element.node := 3%N; Element.src := Some "a"%string;
     Element.width := 70; Element.height := 70;
     Element.opacity := 0.25; Element.blur := 1;
     Element.transform_of := Element.Centered 0 |}.

(** A particle at [(60, 300)] drifting right and up. *)
Definition photo : Photo.t float :=
  {| Photo.element := img; Photo.x := 60; Photo.y := 300;
     Photo.baseX := 60; Photo.baseY := 300;
     Photo.velocityX := 0.5; Photo.velocityY := -0.25;
     Photo.size := 70; Photo.rotation := 0; Photo.rotationSpeed := 0.1 |}.

Definition gallery (mobile : bool) (mouseX mouseY : float) : Gallery.t float :=
  {| Gallery.config := @configure float B64.sample desktop abc;
     Gallery.isMobile := mobile;
     Gallery.mouseX := mouseX; Gallery.mouseY := mouseY;
     Gallery.scrollY := 0;
     Gallery.photos := [photo];
     Gallery.rafId := None;
     Gallery.galleryContainer := Some 2%N |}.
End Sample.

(** ** An engine for the samples of the scroll wave *)

Module Engine.
Local Open Scope float_scope.

(** [Math.sin] at the arguments that the samples reach, [0], [1], [2], [3]
    and the binary64 nearest to [2 * PI]: there it is the binary64 nearest
    to the sine, which is what V8 returns; the polynomial elsewhere. *)
Definition sin (x : float) : float :=
  if x =? 0 then x
  else if x =? 1 then 0.8414709848078965
  else if x =? 2 then 0.9092974268256817
  else if x =? 3 then 0.1411200080598672
  else if x =? 6.283185307179586 then -2.4492935982947064e-16
  else B64.poly_sin x.

Definition number : JsNumber float := B64.number sin B64.poly_cos.
End Engine.

Module FrameSample.
Local Open Scope float_scope.

Definition img (node : N) (src : string) : Element.t float :=
  {| Element.node := node; Element.src := Some src;
     Element.width := 70; Element.height := 70;
     Element.opacity := 0.25; Element.blur := 1;
     Element.transform_of := Element.Centered 0 |}.

(** A particle in the corner at [(50.25, 50.25)], about to cross the left
    margin and to reach the upper one. *)
Definition corner : Photo.t float :=
  {| Photo.element := img 3 "a"; Photo.x := 50.25; Photo.y := 50.25;
     Photo.baseX := 50.25; Photo.baseY := 50.25;
     Photo.velocityX := -0.5; Photo.velocityY := -0.25;
     Photo.size := 70; Photo.rotation := 0; Photo.rotationSpeed := 0.1 |}.

(** A particle at [(60, 300)] drifting right and up. *)
Definition left : Photo.t float :=
  {| Photo.element := img 4 "b"; Photo.x := 60; Photo.y := 300;
     Photo.baseX := 60; Photo.baseY := 300;
     Photo.velocityX := 0.5; Photo.velocityY := -0.25;
     Photo.size := 70; Photo.rotation := 5; Photo.rotationSpeed := -0.05 |}.

(** A particle at [(500, 400)] drifting right and down. *)
Definition middle : Photo.t float :=
  {| Photo.element := img 5 "c"; Photo.x := 500; Photo.y := 400;
     Photo.baseX := 500; Photo.baseY := 400;
     Photo.velocityX := 0.25; Photo.velocityY := 0.5;
     Photo.size := 70; Photo.rotation := -5; Photo.rotationSpeed := 0.05 |}.

(** The three of them in a gallery with the default influences, the frame
    loop stopped. *)
Definition gallery (mobile : bool) (mouseX mouseY scrollY : float)
    : Gallery.t float :=
  {| Gallery.config := @configure float Engine.number Sample.desktop Sample.abc;
     Gallery.isMobile := mobile;
     Gallery.mouseX := mouseX; Gallery.mouseY := mouseY;
     Gallery.scrollY := scrollY;
     Gallery.photos := [corner; left; middle];
     Gallery.rafId := None;
     Gallery.galleryContainer := Some 2%N |}.

(** A desktop whose frame loop waits in the callback number [1], and the
    gallery that scheduled it. *)
Definition waiting : World.t float :=
  {| World.innerWidth := 1024; World.innerHeight := 768;
     World.matchesMobile := false; World.scrollY := 0;
     World.random := fun _ => 0.1; World.randomCalls := 0;
     World.rafHandle := 1%N; World.rafCallbacks := [1%N];
     World.windowListeners := [(resize, ResizeArrow)];
     World.documentListeners := [(mousemove, MouseMoveArrow)];
     World.body := 1%N; World.nextNode := 6%N;
     World.parents := [(5, 2); (4, 2); (3, 2); (2, 1)]%N |}.

Definition running : Gallery.t float :=
  Gallery.set_rafId (Some 1%N) (gallery false 512 384 0).
End FrameSample.

(* ================================================================== *)
(** * Relations between states of a gallery *)

(** The second photo is the first but for its base position. *)
Definition same_but_base {num : Type} (p p' : Photo.t num) : Prop :=
  Photo.element p' = Photo.element p /\
  Photo.x p' = Photo.x p /\ Photo.y p' = Photo.y p /\
  Photo.velocityX p' = Photo.velocityX p /\
  Photo.velocityY p' = Photo.velocityY p /\
  Photo.size p' = Photo.size p /\
  Photo.rotation p' = Photo.rotation p /\
  Photo.rotationSpeed p' = Photo.rotationSpeed p.

(** The second photo is the same particle as the first: the same element
    with the same image and extent, the same creation position, size and
    rotation speed. *)
Definition same_particle {num : Type} (p p' : Photo.t num) : Prop :=
  Element.node (Photo.element p') = Element.node (Photo.element p) /\
  Element.src (Photo.element p') = Element.src (Photo.element p) /\
  Element.width (Photo.element p') = Element.width (Photo.element p) /\
  Element.height (Photo.element p') = Element.height (Photo.element p) /\
  Photo.x p' = Photo.x p /\ Photo.y p' = Photo.y p /\
  Photo.size p' = Photo.size p /\
  Photo.rotationSpeed p' = Photo.rotationSpeed p.

(** The second photo is where the first is, moving as it does. *)
Definition same_motion {num : Type} (p p' : Photo.t num) : Prop :=
  Photo.baseX p' = Photo.baseX p /\ Photo.baseY p' = Photo.baseY p /\
  Photo.velocityX p' = Photo.velocityX p /\
  Photo.velocityY p' = Photo.velocityY p /\
  Photo.rotation p' = Photo.rotation p.

(** The listeners that [init] registers, in a browser that had none: on a
    desktop [resize] on the window and [mousemove] on the document, on a
    mobile [scroll] and [resize] on the window. *)
Definition wired {num : Type} (mobile : bool) (w : World.t num) : Prop :=
  World.windowListeners w =
    (if mobile then [(scroll, ScrollArrow); (resize, ResizeArrow)]
     else [(resize, ResizeArrow)]) /\
  World.documentListeners w =
    (if mobile then [] else [(mousemove, MouseMoveArrow)]).

(** What a gallery reads besides its photos. *)
Definition same_inputs {num : Type} (g g' : Gallery.t num) : Prop :=
  Gallery.config g' = Gallery.config g /\
  Gallery.mouseX g' = Gallery.mouseX g /\
  Gallery.mouseY g' = Gallery.mouseY g /\
  Gallery.scrollY g' = Gallery.scrollY g.

(** Every element has the opacity and the blur of the configuration. *)
Definition styled {num : Type} (g : Gallery.t num) : Prop :=
  Forall (fun p =>
            Element.opacity (Photo.element p) = Config.opacity (Gallery.config g) /\
            Element.blur (Photo.element p) = Config.blur (Gallery.config g))
         (Gallery.photos g).

(** An action that is neither [resume()] nor a resize. *)
Definition quiet {num : Type} (a : @Action num) : bool :=
  match a with
  | Call_resume | WindowResized _ _ _ => false
  | _ => true
  end.

(** On binary64: the second photo drifts as fast as the first along each
    axis. *)
Definition same_speed (p p' : Photo.t float) : Prop :=
  PrimFloat.abs (Photo.velocityX p') = PrimFloat.abs (Photo.velocityX p) /\
  PrimFloat.abs (Photo.velocityY p') = PrimFloat.abs (Photo.velocityY p).

(** The second photo turns as fast as the first, has been turned [n]
    times by its rotation speed, one addition after the other, and, if
    [n] is not [0], has an element rendered at that angle. *)
Definition turned_by {num : Type} {JN : JsNumber num} (n : nat)
    (p q : Photo.t num) : Prop :=
  Photo.rotationSpeed q = Photo.rotationSpeed p /\
  Photo.rotation q
    = Nat.iter n (fun r => (r + Photo.rotationSpeed p)%js) (Photo.rotation p) /\
  (n <> 0%nat ->
   exists x y, Element.transform_of (Photo.element q)
               = Element.Placed x y (Photo.rotation q)).

Module MobileSample.
Local Open Scope float_scope.

(** A tablet held upright, 768 by 1024 pixels, which the media query
    counts as mobile. *)
Definition tablet : World.t float :=
  World.set_viewport 768 1024 true Sample.steady.
End MobileSample.

(* ================================================================== *)
(** * Properties of binary64 arithmetic *)

Unset Implicit Arguments.

Module B64Facts.
Import B64.

Lemma SFcompare_refl x : sf_is_nan x = false -> SFcompare x x = Some Eq.
Proof.
  destruct x as [s|s| |s m e]; simpl; try discriminate; intros _;
    try (destruct s; reflexivity).
  rewrite Z.compare_refl, Pos.compare_cont_refl. destruct s; reflexivity.
Qed.

Lemma SFcompare_swap x y : SFcompare y x = option_map CompOpp (SFcompare x y).
Proof.
  destruct x as [s|s| |s m e], y as [t|t| |t n f]; simpl; try reflexivity;
    try (destruct s; reflexivity); try (destruct t; reflexivity);
    try (destruct s, t; reflexivity).
  destruct s, t; simpl; try reflexivity;
    rewrite (Z.compare_antisym e f); destruct (e ?= f)%Z; simpl; try reflexivity;
    rewrite (Pos.compare_cont_antisym m n Eq); simpl;
    try rewrite CompOpp_involutive; reflexivity.
Qed.

Lemma SFcompare_defined x y :
  sf_is_nan x = false -> sf_is_nan y = false -> exists c, SFcompare x y = Some c.
Proof.
  destruct x, y; simpl; try discriminate; intros _ _; eexists; reflexivity.
Qed.

Lemma is_nan_spec x : PrimFloat.is_nan x = sf_is_nan (Prim2SF x).
Proof.
  unfold PrimFloat.is_nan. rewrite eqb_spec. unfold SFeqb.
  destruct (sf_is_nan (Prim2SF x)) eqn:E.
  - destruct (Prim2SF x); try discriminate. reflexivity.
  - rewrite (SFcompare_refl _ E). reflexivity.
Qed.

Lemma is_finite_spec x : PrimFloat.is_finite x = sf_is_finite (Prim2SF x).
Proof.
  unfold PrimFloat.is_finite, PrimFloat.is_infinity.
  rewrite is_nan_spec, eqb_spec, abs_spec. unfold SFeqb.
  change (Prim2SF infinity) with (S754_infinity false).
  destruct (Prim2SF x) as [s|s| |s m e]; simpl; try reflexivity.
Qed.

Lemma finite_not_nan x : PrimFloat.is_finite x = true -> PrimFloat.is_nan x = false.
Proof.
  rewrite is_finite_spec, is_nan_spec. destruct (Prim2SF x); simpl; congruence.
Qed.

Lemma leb_refl x : PrimFloat.is_nan x = false -> PrimFloat.leb x x = true.
Proof.
  rewrite is_nan_spec, leb_spec. intros E. unfold SFleb.
  rewrite (SFcompare_refl _ E). reflexivity.
Qed.

Lemma ltb_leb x y : PrimFloat.ltb x y = true -> PrimFloat.leb x y = true.
Proof.
  rewrite ltb_spec, leb_spec. unfold SFltb, SFleb.
  destruct (SFcompare _ _) as [[]|]; congruence.
Qed.

Lemma not_ltb_leb x y :
  PrimFloat.is_nan x = false -> PrimFloat.is_nan y = false ->
  PrimFloat.ltb x y = false -> PrimFloat.leb y x = true.
Proof.
  rewrite !is_nan_spec, ltb_spec, leb_spec. intros Ex Ey.
  unfold SFltb, SFleb. rewrite (SFcompare_swap (Prim2SF x) (Prim2SF y)).
  destruct (SFcompare_defined _ _ Ex Ey) as [c ->]. destruct c; simpl; congruence.
Qed.

Lemma leb_not_nan_l x y : PrimFloat.leb x y = true -> PrimFloat.is_nan x = false.
Proof.
  rewrite leb_spec, is_nan_spec. unfold SFleb.
  destruct (Prim2SF x); simpl; try reflexivity. discriminate.
Qed.

Lemma leb_not_nan_r x y : PrimFloat.leb x y = true -> PrimFloat.is_nan y = false.
Proof.
  rewrite leb_spec, is_nan_spec. unfold SFleb.
  destruct (Prim2SF x), (Prim2SF y); simpl; try reflexivity; discriminate.
Qed.

(** A number between two finite numbers is finite. *)
Lemma between_finite lo hi x :
  PrimFloat.is_finite lo = true -> PrimFloat.is_finite hi = true ->
  between lo hi x = true -> PrimFloat.is_finite x = true.
Proof.
  unfold between. rewrite !is_finite_spec, !leb_spec. unfold SFleb.
  destruct (Prim2SF lo) as [a|a| |a ml el], (Prim2SF hi) as [b|b| |b mh eh],
           (Prim2SF x) as [c|c| |c m e];
    simpl; try discriminate; try reflexivity; intros _ _;
    destruct c; simpl; try discriminate;
    try (destruct a; discriminate); try (destruct b; discriminate);
    rewrite ?andb_false_r; try discriminate.
Qed.

(** ** [Math.max] and [Math.min] pick one of their arguments *)

Lemma max_cases a b :
  PrimFloat.is_nan a = false -> PrimFloat.is_nan b = false ->
  (max a b = a /\ PrimFloat.leb b a = true) \/
  (max a b = b /\ PrimFloat.leb a b = true).
Proof.
  intros Ea Eb. unfold max. rewrite Ea, Eb. simpl.
  destruct (PrimFloat.ltb a b) eqn:Hab.
  - right. split; [reflexivity | apply ltb_leb, Hab].
  - destruct (PrimFloat.ltb b a) eqn:Hba.
    + left. split; [reflexivity | apply ltb_leb, Hba].
    + destruct (PrimFloat.is_zero a && PrimFloat.get_sign a).
      * right. split; [reflexivity | apply not_ltb_leb; assumption].
      * left. split; [reflexivity | apply not_ltb_leb; assumption].
Qed.

Lemma min_cases a b :
  PrimFloat.is_nan a = false -> PrimFloat.is_nan b = false ->
  (min a b = a /\ PrimFloat.leb a b = true) \/
  (min a b = b /\ PrimFloat.leb b a = true).
Proof.
  intros Ea Eb. unfold min. rewrite Ea, Eb. simpl.
  destruct (PrimFloat.ltb a b) eqn:Hab.
  - left. split; [reflexivity | apply ltb_leb, Hab].
  - destruct (PrimFloat.ltb b a) eqn:Hba.
    + right. split; [reflexivity | apply ltb_leb, Hba].
    + destruct (PrimFloat.is_zero a && PrimFloat.get_sign b).
      * right. split; [reflexivity | apply not_ltb_leb; assumption].
      * left. split; [reflexivity | apply not_ltb_leb; assumption].
Qed.

(** Clamping a number into a non-empty interval lands in the interval. *)
Lemma clamp_between lo hi x :
  PrimFloat.leb lo hi = true -> PrimFloat.is_nan x = false ->
  between lo hi (max lo (min hi x)) = true.
Proof.
  intros Hlh Ex.
  pose proof (leb_not_nan_l _ _ Hlh) as Elo.
  pose proof (leb_not_nan_r _ _ Hlh) as Ehi.
  assert (Ht : PrimFloat.is_nan (min hi x) = false /\
               PrimFloat.leb (min hi x) hi = true).
  { destruct (min_cases hi x Ehi Ex) as [[-> _]|[-> H]].
    - split; [assumption | apply leb_refl; assumption].
    - split; assumption. }
  destruct Ht as [Et Hth]. unfold between.
  destruct (max_cases lo (min hi x) Elo Et) as [[-> _]|[-> H]].
  - rewrite (leb_refl _ Elo), Hlh. reflexivity.
  - rewrite H, Hth. reflexivity.
Qed.

(** ** Rounding never produces [NaN] *)

Lemma shr_1_nonneg mrs : (0 <= shr_m mrs)%Z -> (0 <= shr_m (shr_1 mrs))%Z.
Proof.
  destruct mrs as [m r s]; simpl. destruct m as [|[p|p|]|[p|p|]]; simpl; lia.
Qed.

Lemma iter_shr_1_nonneg p :
  forall mrs, (0 <= shr_m mrs)%Z -> (0 <= shr_m (SpecFloat.iter_pos shr_1 p mrs))%Z.
Proof. induction p; simpl; intros; auto using shr_1_nonneg. Qed.

Lemma shr_fexp_nonneg m e l :
  (0 <= m)%Z -> (0 <= shr_m (fst (shr_fexp prec emax m e l)))%Z.
Proof.
  intros H. unfold shr_fexp, shr.
  assert (0 <= shr_m (shr_record_of_loc m l))%Z
    by (destruct l as [|[]]; simpl; exact H).
  destruct (fexp prec emax (Zdigits2 m + e) - e)%Z; simpl;
    auto using iter_shr_1_nonneg.
Qed.

Lemma round_nearest_even_nonneg m l :
  (0 <= m)%Z -> (0 <= round_nearest_even m l)%Z.
Proof.
  intros; unfold round_nearest_even.
  destruct l as [|[]]; try destruct (Z.even m); lia.
Qed.

Lemma binary_round_aux_not_nan sx mx ex lx :
  (0 <= mx)%Z -> sf_is_nan (binary_round_aux prec emax sx mx ex lx) = false.
Proof.
  intros H. unfold binary_round_aux.
  pose proof (shr_fexp_nonneg mx ex lx H) as H1.
  destruct (shr_fexp prec emax mx ex lx) as [mrs' e']. simpl in H1.
  pose proof (shr_fexp_nonneg _ e' loc_Exact
                (round_nearest_even_nonneg _ (loc_of_shr_record mrs') H1)) as H2.
  destruct (shr_fexp prec emax _ e' loc_Exact) as [mrs'' e'']. simpl in H2.
  destruct (shr_m mrs''); try lia; simpl; auto.
  destruct (Z.leb e'' _); reflexivity.
Qed.

Lemma binary_normalize_not_nan m e s :
  sf_is_nan (binary_normalize prec emax m e s) = false.
Proof.
  unfold binary_normalize, binary_round. destruct m; simpl; auto;
    destruct (shl_align _ _ _); apply binary_round_aux_not_nan; lia.
Qed.

(** A finite number plus a number is a number. *)
Lemma add_finite_not_nan x y :
  PrimFloat.is_finite x = true -> PrimFloat.is_nan y = false ->
  PrimFloat.is_nan (x + y)%float = false.
Proof.
  rewrite is_finite_spec, !is_nan_spec, add_spec. unfold SF64add.
  destruct (Prim2SF x) as [s|s| |s m e], (Prim2SF y) as [t|t| |t n f];
    simpl; try discriminate; intros _ _; auto.
  - destruct s, t; reflexivity.
  - apply binary_normalize_not_nan.
Qed.

(** Negating a number by [* -1] gives a number. *)
Lemma mul_minus_1_not_nan x :
  PrimFloat.is_nan x = false -> PrimFloat.is_nan (x * literal (-1))%float = false.
Proof.
  rewrite !is_nan_spec, mul_spec. unfold SF64mul.
  change (Prim2SF (literal (-1))) with (S754_finite true 4503599627370496 (-52)).
  destruct (Prim2SF x) as [s|s| |s m e]; simpl; try discriminate; intros _; auto.
  apply binary_round_aux_not_nan. lia.
Qed.

(** ** Multiplying by [-1] changes the sign and nothing else *)

Lemma digits2_pos_shift m :
  digits2_pos (4503599627370496 * m) = (digits2_pos m + 52)%positive.
Proof. cbn [Pos.mul digits2_pos]. lia. Qed.

Lemma shr_52 m :
  SpecFloat.iter_pos shr_1 52
    {| shr_m := Zpos (4503599627370496 * m); shr_r := false; shr_s := false |} =
  {| shr_m := Zpos m; shr_r := false; shr_s := false |}.
Proof. reflexivity. Qed.

Lemma SFmul_minus_1 x :
  valid_binary x = true ->
  SF64mul x (S754_finite true 4503599627370496 (-52)) = SFopp x.
Proof.
  destruct x as [s|s| |s m e]; intros Hv; try reflexivity;
    try (destruct s; reflexivity).
  cbn [valid_binary] in Hv. unfold bounded, canonical_mantissa in Hv.
  apply andb_true_iff in Hv. destruct Hv as [Hc He]. apply Z.eqb_eq in Hc.
  unfold SF64mul, SFmul, binary_round_aux.
  rewrite (Pos.mul_comm m).
  assert (H1 : shr_fexp prec emax (Z.pos (4503599627370496 * m)) (e + -52) loc_Exact
               = ({| shr_m := Zpos m; shr_r := false; shr_s := false |}, e)).
  { unfold shr_fexp. unfold Zdigits2. rewrite digits2_pos_shift.
    replace (fexp prec emax (Z.pos (digits2_pos m + 52) + (e + -52)) - (e + -52))%Z
      with 52%Z.
    - unfold shr, shr_record_of_loc. rewrite shr_52. f_equal. lia.
    - replace (Z.pos (digits2_pos m + 52) + (e + -52))%Z
        with (Z.pos (digits2_pos m) + e)%Z by lia.
      rewrite Hc. lia. }
  rewrite H1. cbn [shr_m loc_of_shr_record round_nearest_even].
  assert (H2 : shr_fexp prec emax (Z.pos m) e loc_Exact
               = ({| shr_m := Zpos m; shr_r := false; shr_s := false |}, e)).
  { unfold shr_fexp, Zdigits2. rewrite Hc, Z.sub_diag. reflexivity. }
  rewrite H2. cbn [shr_m]. rewrite He. destruct s; reflexivity.
Qed.

Lemma mul_minus_1_opp x : (x * literal (-1))%float = (- x)%float.
Proof.
  apply Prim2SF_inj. rewrite mul_spec, opp_spec.
  change (Prim2SF (literal (-1))) with (S754_finite true 4503599627370496 (-52)).
  apply SFmul_minus_1, Prim2SF_valid.
Qed.

Lemma leb_not_ltb x y : PrimFloat.leb x y = true -> PrimFloat.ltb y x = false.
Proof.
  rewrite leb_spec, ltb_spec. unfold SFleb, SFltb.
  rewrite (SFcompare_swap (Prim2SF x) (Prim2SF y)).
  destruct (SFcompare _ _) as [[]|]; simpl; congruence.
Qed.

(** ** The literals of the class *)

Example literal_50 : literal 50 = 50%float.
Proof. reflexivity. Qed.

Example literal_300 : literal 300 = 300%float.
Proof. reflexivity. Qed.

Example literal_0_01 : literal 0.01 = 0.01%float.
Proof. reflexivity. Qed.

Example literal_0_25 : literal 0.25 = 0.25%float.
Proof. reflexivity. Qed.

Example literal_0_3 : literal 0.3 = 0.3%float.
Proof. reflexivity. Qed.

Example literal_0_05 : literal 0.05 = 0.05%float.
Proof. reflexivity. Qed.

Example literal_0_02 : literal 0.02 = 0.02%float.
Proof. reflexivity. Qed.

Example literal_minus_1 : literal (-1) = (-1)%float.
Proof. reflexivity. Qed.

Lemma nan_spec x : Prim2SF x = S754_nan -> x = PrimFloat.nan.
Proof. intros H. apply Prim2SF_inj. rewrite H. reflexivity. Qed.



End B64Facts.

(* ================================================================== *)
(** * The frame update, for any numbers *)

Section FrameUpdate.
Context {num : Type} {JN : JsNumber num}.
Local Open Scope js_scope.

Lemma animate_photo_baseX w g index photo :
  Photo.baseX (animate_photo w g index photo) =
  snd (bounce (World.innerWidth w) (Photo.velocityX photo)
              (Photo.baseX photo + Photo.velocityX photo)).
Proof.
  unfold animate_photo.
  destruct (bounce (World.innerWidth w) _ _), (bounce (World.innerHeight w) _ _).
  destruct (if negb (Gallery.isMobile g) then _ else _). reflexivity.
Qed.

Lemma animate_photo_baseY w g index photo :
  Photo.baseY (animate_photo w g index photo) =
  snd (bounce (World.innerHeight w) (Photo.velocityY photo)
              (Photo.baseY photo + Photo.velocityY photo)).
Proof.
  unfold animate_photo.
  destruct (bounce (World.innerWidth w) _ _), (bounce (World.innerHeight w) _ _).
  destruct (if negb (Gallery.isMobile g) then _ else _). reflexivity.
Qed.

Lemma animate_photo_velocityX w g index photo :
  Photo.velocityX (animate_photo w g index photo) =
  fst (bounce (World.innerWidth w) (Photo.velocityX photo)
              (Photo.baseX photo + Photo.velocityX photo)).
Proof.
  unfold animate_photo.
  destruct (bounce (World.innerWidth w) _ _), (bounce (World.innerHeight w) _ _).
  destruct (if negb (Gallery.isMobile g) then _ else _). reflexivity.
Qed.

Lemma animate_photo_velocityY w g index photo :
  Photo.velocityY (animate_photo w g index photo) =
  fst (bounce (World.innerHeight w) (Photo.velocityY photo)
              (Photo.baseY photo + Photo.velocityY photo)).
Proof.
  unfold animate_photo.
  destruct (bounce (World.innerWidth w) _ _), (bounce (World.innerHeight w) _ _).
  destruct (if negb (Gallery.isMobile g) then _ else _). reflexivity.
Qed.

(** The position written to the element is the base position after the
    bounce, moved by the influence of the mode. *)
Lemma animate_photo_rendered w g index photo :
  Element.rendered (Photo.element (animate_photo w g index photo)) =
  Some (if negb (Gallery.isMobile g)
        then mouse_influence g (Photo.baseX (animate_photo w g index photo))
                               (Photo.baseY (animate_photo w g index photo))
        else scroll_influence g index
                              (Photo.baseX (animate_photo w g index photo))
                              (Photo.baseY (animate_photo w g index photo))).
Proof.
  rewrite animate_photo_baseX, animate_photo_baseY.
  unfold animate_photo.
  destruct (bounce (World.innerWidth w) _ _), (bounce (World.innerHeight w) _ _).
  cbn [snd].
  destruct (if negb (Gallery.isMobile g) then _ else _) as [fx fy].
  reflexivity.
Qed.

Lemma forEach_index_Forall (P Q : Photo.t num -> Prop)
    (f : nat -> Photo.t num -> Photo.t num) :
  (forall i p, P p -> Q (f i p)) ->
  forall l i, Forall P l -> Forall Q (forEach_index f i l).
Proof.
  intros Hf l. induction l as [|p l IH]; intros i Hl; simpl.
  - constructor.
  - inversion Hl; subst. constructor; auto.
Qed.

Lemma forEach_index_length (f : nat -> Photo.t num -> Photo.t num) :
  forall l i, List.length (forEach_index f i l) = List.length l.
Proof. induction l; intros; simpl; auto. Qed.

Lemma animate_photos w g :
  Gallery.photos (snd (animate w g)) =
  forEach_index (animate_photo w g) 0 (Gallery.photos g).
Proof. reflexivity. Qed.

Lemma animate_viewport w g :
  World.innerWidth (fst (animate w g)) = World.innerWidth w /\
  World.innerHeight (fst (animate w g)) = World.innerHeight w.
Proof. split; reflexivity. Qed.

Lemma frames_S n s :
  frames (S n) s = animate (fst (frames n s)) (snd (frames n s)).
Proof. reflexivity. Qed.

Lemma frames_viewport n : forall s,
  World.innerWidth (fst (frames n s)) = World.innerWidth (fst s) /\
  World.innerHeight (fst (frames n s)) = World.innerHeight (fst s).
Proof.
  induction n; intros s.
  - split; reflexivity.
  - rewrite frames_S.
    destruct (animate_viewport (fst (frames n s)) (snd (frames n s))) as [-> ->].
    apply IHn.
Qed.
End FrameUpdate.

(* ================================================================== *)
(** * Construction, for any numbers *)

Section Construction.
Context {num : Type} {JN : JsNumber num}.

Lemma same_draws_refl (w : World.t num) : same_draws w w.
Proof. repeat split. Qed.

Lemma accepted_same_draws (w0 w : World.t num) c :
  same_draws w0 w -> accepted w c = accepted w0 c.
Proof.
  intros (Hw & Hh & Hr). unfold accepted, candidate, isInCenterZone.
  rewrite Hw, Hh, Hr. reflexivity.
Qed.

Lemma pick_position_step fuel w :
  pick_position (S fuel) w =
  let c := World.randomCalls w in
  let w2 := World.set_randomCalls (S (S c)) w in
  if accepted w c
  then Some (fst (candidate w c), snd (candidate w c), w2)
  else pick_position fuel w2.
Proof.
  cbn [pick_position Math_random]. cbv zeta.
  match goal with
  | |- (if ?b then _ else _) = _ =>
      assert (E : b = negb (accepted w (World.randomCalls w)))
        by (unfold accepted; rewrite negb_involutive; reflexivity);
      rewrite E
  end.
  destruct (accepted w (World.randomCalls w)); reflexivity.
Qed.

Lemma pick_position_completes fuel : forall w0 w,
  same_draws w0 w ->
  (exists j, (j < fuel)%nat /\ accepted w0 (World.randomCalls w + 2 * j)%nat = true) ->
  exists x y calls,
    pick_position fuel w = Some (x, y, World.set_randomCalls calls w).
Proof.
  induction fuel as [|fuel IH]; intros w0 w Hsame (j & Hj & Hacc); [lia|].
  rewrite pick_position_step. cbv zeta.
  destruct (accepted w (World.randomCalls w)) eqn:E.
  - eexists _, _, _. reflexivity.
  - destruct j as [|j].
    + rewrite Nat.mul_0_r, Nat.add_0_r in Hacc.
      rewrite (accepted_same_draws w0 w _ Hsame) in E. congruence.
    + destruct (IH w0 (World.set_randomCalls (S (S (World.randomCalls w))) w))
        as (x & y & calls & H).
      * destruct Hsame as (Hw & Hh & Hr). repeat split; assumption.
      * exists j. split; [lia|]. cbn [World.randomCalls World.set_randomCalls].
        replace (S (S (World.randomCalls w)) + 2 * j)%nat
          with (World.randomCalls w + 2 * S j)%nat by lia.
        assumption.
      * exists x, y, calls. rewrite H. reflexivity.
Qed.

(** What [createPhoto] leaves of the browser: the draws and the viewport
    are as before, and so is everything but the DOM and the draw count. *)
Lemma createPhoto_completes fuel w0 w g index :
  same_draws w0 w -> sampling_completes fuel w0 ->
  exists photo w',
    createPhoto fuel w g index = Some (photo, w') /\
    same_draws w0 w' /\
    Element.src (Photo.element photo) =
      nth_error (Config.images (Gallery.config g))
                (index mod List.length (Config.images (Gallery.config g))).
Proof.
  intros Hsame Hfuel. unfold createPhoto. cbn [createElement].
  set (w1 := World.set_dom _ _ w).
  assert (Hsame1 : same_draws w0 w1) by exact Hsame.
  destruct (pick_position_completes fuel w0 w1 Hsame1 (Hfuel (World.randomCalls w1)))
    as (x & y & calls & ->).
  cbn [Math_random]. eexists _, _. split; [reflexivity|]. split.
  - exact Hsame.
  - reflexivity.
Qed.

Lemma createPhotos_loop_completes fuel w0 : forall todo i w g,
  same_draws w0 w -> sampling_completes fuel w0 ->
  exists w' g',
    createPhotos_loop fuel todo i w g = Some (w', g') /\
    same_draws w0 w' /\
    Gallery.config g' = Gallery.config g /\
    Gallery.isMobile g' = Gallery.isMobile g /\
    exists created,
      Gallery.photos g' = Gallery.photos g ++ created /\
      List.length created = todo /\
      forall k photo, nth_error created k = Some photo ->
        Element.src (Photo.element photo) =
          nth_error (Config.images (Gallery.config g))
                    ((i + k) mod List.length (Config.images (Gallery.config g))).
Proof.
  induction todo as [|todo IH]; intros i w g Hsame Hfuel.
  - exists w, g. split; [reflexivity|]. split; [assumption|].
    split; [reflexivity|]. split; [reflexivity|].
    exists []. rewrite app_nil_r. split; [reflexivity|]. split; [reflexivity|].
    intros [|k] photo H; discriminate.
  - cbn [createPhotos_loop].
    destruct (createPhoto_completes fuel w0 w g i Hsame Hfuel)
      as (photo & w1 & -> & Hsame1 & Hsrc).
    set (g1 := Gallery.set_photos _ g).
    set (w2 := match Gallery.galleryContainer g1 with
               | Some c => _ | None => w1 end).
    assert (Hsame2 : same_draws w0 w2)
      by (unfold w2; destruct (Gallery.galleryContainer g1); exact Hsame1).
    destruct (IH (S i) w2 g1 Hsame2 Hfuel)
      as (w' & g' & -> & Hsame' & Hcfg & Hmob & created & Hphotos & Hlen & Hnth).
    exists w', g'. split; [reflexivity|]. split; [assumption|].
    split; [assumption|]. split; [assumption|].
    exists (photo :: created). split; [|split].
    + rewrite Hphotos. unfold g1. cbn [Gallery.photos Gallery.set_photos].
      rewrite <- app_assoc. reflexivity.
    + cbn. rewrite Hlen. reflexivity.
    + intros [|k] p Hp.
      * cbn in Hp. injection Hp as <-. rewrite Nat.add_0_r. exact Hsrc.
      * cbn in Hp. rewrite (Hnth k p Hp). unfold g1.
        cbn [Gallery.config Gallery.set_photos].
        replace (S i + k)%nat with (i + S k)%nat by lia. reflexivity.
Qed.

Lemma forEach_index_nth (f : nat -> Photo.t num -> Photo.t num) : forall l i k,
  nth_error (forEach_index f i l) k =
  option_map (f (i + k)%nat) (nth_error l k).
Proof.
  induction l as [|p l IH]; intros i [|k]; cbn; try reflexivity.
  - rewrite Nat.add_0_r. reflexivity.
  - rewrite IH. replace (S i + k)%nat with (i + S k)%nat by lia. reflexivity.
Qed.

Lemma animate_photo_src w g index photo :
  Element.src (Photo.element (animate_photo w g index photo)) =
  Element.src (Photo.element photo).
Proof.
  unfold animate_photo.
  destruct (bounce (World.innerWidth w) _ _), (bounce (World.innerHeight w) _ _).
  destruct (if negb (Gallery.isMobile g) then _ else _). reflexivity.
Qed.

(** When [Math.random] never proposes [fuel] centre-zone positions in a
    row, the constructor completes, and the gallery has exactly
    [min(count, n)] particles, [n] the number of images, the particle
    number [i] with the image [images[i mod n]]; without images it has
    none, whatever is drawn. *)
Lemma constructor_creates_min_count_photos
    (fuel : nat) (w : World.t num) (options : Options.t num) :
  let cfg := configure w options in
  let n := List.length (Config.images cfg) in
  (sampling_completes fuel w \/ n = 0%nat) ->
  exists w' g',
    constructor fuel w options = Some (w', g') /\
    Gallery.config g' = cfg /\
    List.length (Gallery.photos g') = Nat.min (Config.count cfg) n /\
    forall i photo, nth_error (Gallery.photos g') i = Some photo ->
      Element.src (Photo.element photo) = nth_error (Config.images cfg) (i mod n).
Proof.
  intros cfg n Hfuel. unfold constructor, init. cbn [createElement].
  set (g0 := Gallery.set_galleryContainer _ _).
  set (w0 := appendChild _ _ _).
  assert (Hloop : exists w1 g1,
            createPhotos fuel w0 g0 = Some (w1, g1) /\
            Gallery.config g1 = cfg /\
            List.length (Gallery.photos g1) = Nat.min (Config.count cfg) n /\
            forall i photo, nth_error (Gallery.photos g1) i = Some photo ->
              Element.src (Photo.element photo) =
                nth_error (Config.images cfg) (i mod n)).
  { unfold createPhotos. change (Gallery.config g0) with cfg. fold n.
    destruct Hfuel as [Hfuel | Hn].
    - destruct (createPhotos_loop_completes fuel w (Nat.min (Config.count cfg) n)
                  0 w0 g0 (same_draws_refl w) Hfuel)
        as (w1 & g1 & Hrun & _ & Hcfg & _ & created & Hphotos & Hlen & Hnth).
      exists w1, g1. split; [exact Hrun|]. split; [exact Hcfg|].
      change (Gallery.photos g0) with (@nil (Photo.t num)) in Hphotos.
      cbn [app] in Hphotos. rewrite Hphotos. split; [exact Hlen|].
      intros i photo Hi. exact (Hnth i photo Hi).
    - rewrite Hn, Nat.min_0_r. exists w0, g0. cbn [createPhotos_loop].
      split; [reflexivity|]. split; [reflexivity|]. split; [reflexivity|].
      intros [|i] photo Hi; discriminate. }
  destruct Hloop as (w1 & g1 & -> & Hcfg & Hlen & Hnth).
  unfold animate. cbn [requestAnimationFrame].
  eexists _, _. split; [reflexivity|].
  cbn [Gallery.config Gallery.photos Gallery.set_rafId Gallery.set_photos].
  split; [exact Hcfg|]. split.
  - rewrite forEach_index_length. exact Hlen.
  - intros i photo Hi. rewrite forEach_index_nth in Hi.
    destruct (nth_error (Gallery.photos g1) i) as [p|] eqn:Hp; [|discriminate].
    cbn in Hi. injection Hi as <-. rewrite animate_photo_src.
    exact (Hnth i p Hp).
Qed.
End Construction.

(** Two samples on a desktop: three images and a count of three give
    three particles with the images in order, and no image gives no
    particle. *)
Lemma constructor_creates_min_count_photos_sample :
  @sampling_completes float B64.sample 1 Sample.steady /\
  (exists w' g',
     @constructor float B64.sample 1 Sample.steady Sample.abc = Some (w', g') /\
     List.length (Gallery.photos g') = 3%nat /\
     map (fun photo => Element.src (Photo.element photo)) (Gallery.photos g') =
       [Some "a"; Some "b"; Some "c"]%string) /\
  (exists w' g',
     @constructor float B64.sample 0 Sample.steady Sample.no_images = Some (w', g') /\
     List.length (Gallery.photos g') = 0%nat).
Proof.
  assert (H : @sampling_completes float B64.sample 1 Sample.steady).
  { intros c. exists 0%nat. split; [lia | reflexivity]. }
  split; [exact H|]. split.
  - destruct (@constructor_creates_min_count_photos float B64.sample 1
                Sample.steady Sample.abc (or_introl H))
      as (w' & g' & Hrun & _ & Hlen & Hsrc).
    exists w', g'. split; [exact Hrun|]. split; [exact Hlen|].
    clear Hrun. change (Nat.min _ _) with 3%nat in Hlen.
    destruct (Gallery.photos g') as [|p0 [|p1 [|p2 [|p3 l]]]];
      try discriminate Hlen.
    cbn [map]. rewrite (Hsrc 0%nat p0 eq_refl), (Hsrc 1%nat p1 eq_refl),
      (Hsrc 2%nat p2 eq_refl). reflexivity.
  - destruct (@constructor_creates_min_count_photos float B64.sample 0
                Sample.steady Sample.no_images (or_intror eq_refl))
      as (w' & g' & Hrun & _ & Hlen & _).
    exists w', g'. split; [exact Hrun | exact Hlen].
Defined.

(** In a viewport of 320 by 568 pixels every position that [createPhoto]
    may propose is within 200 pixels of the centre, so its loop has no way
    out: here with [Math.random] returning [0.1], whatever the fuel. *)
Lemma pick_position_phone fuel : forall w,
  same_draws Sample.phone w -> @pick_position float B64.sample fuel w = None.
Proof.
  induction fuel as [|fuel IH]; intros w Hsame; [reflexivity|].
  rewrite pick_position_step. cbv zeta.
  rewrite (@accepted_same_draws float B64.sample Sample.phone w _ Hsame).
  change (@accepted float B64.sample Sample.phone (World.randomCalls w)) with false.
  apply IH. destruct Hsame as (Hw & Hh & Hr). repeat split; assumption.
Qed.

(** C6, on a phone of 320 by 568 pixels with three images and a count of
    three: the constructor does not complete, whatever the fuel, and so
    creates no particle, where [min(count, n)] is three. *)
Theorem constructor_never_completes_on_phone (fuel : nat) :
  Nat.min (Config.count (@configure float B64.sample Sample.phone Sample.abc))
          (List.length
             (Config.images (@configure float B64.sample Sample.phone Sample.abc)))
    = 3%nat /\
  @constructor float B64.sample fuel Sample.phone Sample.abc = None.
Proof.
  split; [reflexivity|].
  unfold constructor, init. cbn [createElement].
  unfold createPhotos.
  match goal with
  | |- context [createPhotos_loop fuel ?n 0 ?w ?g] =>
      change n with 3%nat; cbn [createPhotos_loop]; unfold createPhoto;
      cbn [createElement]
  end.
  rewrite pick_position_phone; [reflexivity|].
  repeat split.
Qed.

(* ================================================================== *)
(** * The frame loop, for any numbers *)

Section FrameLoop.
Context {num : Type} {JN : JsNumber num}.

Lemma pick_position_raf fuel : forall (w w' : World.t num) x y,
  pick_position fuel w = Some (x, y, w') -> same_raf w w'.
Proof.
  induction fuel as [|fuel IH]; intros w w' x y H; [discriminate|].
  rewrite pick_position_step in H. cbv zeta in H.
  destruct (accepted w (World.randomCalls w)).
  - injection H as _ _ <-. split; reflexivity.
  - apply IH in H. exact H.
Qed.

Lemma createPhoto_raf fuel (w w' : World.t num) g index photo :
  createPhoto fuel w g index = Some (photo, w') -> same_raf w w'.
Proof.
  unfold createPhoto. cbn [createElement].
  destruct (pick_position fuel _) as [[[x y] w1]|] eqn:E; [|discriminate].
  apply pick_position_raf in E. cbn [Math_random]. intros H.
  injection H as _ <-. exact E.
Qed.

Lemma createPhotos_loop_raf fuel : forall todo i (w w' : World.t num) g g',
  createPhotos_loop fuel todo i w g = Some (w', g') ->
  same_raf w w' /\ Gallery.rafId g' = Gallery.rafId g.
Proof.
  induction todo as [|todo IH]; intros i w w' g g' H; cbn [createPhotos_loop] in H.
  - injection H as <- <-. repeat split.
  - destruct (createPhoto fuel w g i) as [[photo w1]|] eqn:E; [|discriminate].
    apply createPhoto_raf in E. apply IH in H. destruct H as [[H1 H2] H3].
    destruct E as [E1 E2]. split; [split|].
    + rewrite H1.
      destruct (Gallery.galleryContainer _); cbn; exact E1.
    + rewrite H2.
      destruct (Gallery.galleryContainer _); cbn; exact E2.
    + rewrite H3. reflexivity.
Qed.

Lemma animate_one_loop (w : World.t num) g :
  World.rafCallbacks w = [] -> one_loop (animate w g).
Proof.
  intros H. right. exists (N.succ (World.rafHandle w)). unfold animate.
  cbn. rewrite H. repeat split. apply N.neq_succ_0.
Qed.

Lemma constructor_one_loop fuel (w : World.t num) options s :
  World.rafCallbacks w = [] -> constructor fuel w options = Some s -> one_loop s.
Proof.
  intros Hraf. unfold constructor, init. cbn [createElement].
  destruct (createPhotos fuel _ _) as [[w1 g1]|] eqn:E; [|discriminate].
  unfold createPhotos in E. apply createPhotos_loop_raf in E.
  destruct E as [[_ E] _]. cbn in E. rewrite Hraf in E.
  intros H. injection H as <-.
  assert (Hsetup : World.rafCallbacks
            (if negb (Gallery.isMobile g1) then setupMouseTracking w1
             else setupScrollTracking w1) = [])
    by (destruct (negb _); exact E).
  right. eexists.
  cbn [fst snd World.rafCallbacks World.set_windowListeners World.set_raf
       Gallery.rafId Gallery.set_rafId].
  rewrite Hsetup. split; [reflexivity|]. split; [reflexivity|].
  apply N.neq_succ_0.
Qed.

Lemma reposition_raf : forall l (w : World.t num),
  same_raf w (fst (reposition w l)).
Proof.
  induction l as [|p l IH]; intros w; cbn [reposition Math_random].
  - split; reflexivity.
  - match goal with
    | |- context [reposition ?w1 l] =>
        pose proof (IH w1) as H; destruct (reposition w1 l) as [w2 l2]
    end.
    exact H.
Qed.

Lemma handleResize_raf (w : World.t num) g :
  same_raf w (fst (handleResize w g)) /\
  Gallery.rafId (snd (handleResize w g)) = Gallery.rafId g.
Proof.
  unfold handleResize. destruct (negb _).
  - pose proof (reposition_raf (Gallery.photos (Gallery.set_isMobile
                  (World.matchesMobile w) g)) w) as H.
    destruct (reposition w _) as [w1 l1]. split; [exact H | reflexivity].
  - repeat split.
Qed.

Lemma invoke_raf cb ev (s : World.t num * Gallery.t num) :
  same_raf (fst s) (fst (invoke cb ev s)) /\
  Gallery.rafId (snd (invoke cb ev s)) = Gallery.rafId (snd s).
Proof.
  destruct s as [w g]. destruct cb, ev; cbn [invoke fst snd];
    try apply handleResize_raf; repeat split.
Qed.

Lemma dispatch_raf ty ev : forall listeners (s : World.t num * Gallery.t num),
  same_raf (fst s) (fst (dispatch listeners ty ev s)) /\
  Gallery.rafId (snd (dispatch listeners ty ev s)) = Gallery.rafId (snd s).
Proof.
  unfold dispatch. induction listeners as [|l ls IH]; intros s; cbn [fold_left].
  - repeat split.
  - destruct (EventType_eqb (fst l) ty); [|apply IH].
    destruct (IH (invoke (snd l) ev s)) as [[H1 H2] H3].
    destruct (invoke_raf (snd l) ev s) as [[I1 I2] I3].
    split; [split|]; congruence.
Qed.

Lemma dispatch_one_loop listeners ty ev (s : World.t num * Gallery.t num) :
  one_loop s -> one_loop (dispatch listeners ty ev s).
Proof.
  destruct (dispatch_raf ty ev listeners s) as [[_ H2] H3].
  unfold one_loop. rewrite H2, H3. exact (fun H => H).
Qed.

(** With the loop as [one_loop] has it, cancelling the handle in [rafId]
    leaves no callback. *)
Lemma cancel_rafId (w : World.t num) g h :
  one_loop (w, g) -> Gallery.rafId g = Some h ->
  World.rafCallbacks (cancelAnimationFrame h w) = [].
Proof.
  intros [H|(k & H & Hk & _)] Hh; cbn in *; rewrite H; cbn.
  - reflexivity.
  - assert (k = h) by congruence. subst k. rewrite N.eqb_refl. reflexivity.
Qed.

Lemma stopped_no_callback (w : World.t num) g :
  one_loop (w, g) -> handle_truthy (Gallery.rafId g) = false ->
  World.rafCallbacks w = [].
Proof.
  intros [H|(k & H & Hk & Hnz)] Hf; cbn in *; [exact H|].
  rewrite Hk in Hf. cbn in Hf. apply negb_false_iff, N.eqb_eq in Hf. contradiction.
Qed.

Lemma pause_one_loop (w : World.t num) g :
  one_loop (w, g) ->
  World.rafCallbacks (fst (pause w g)) = [] /\
  handle_truthy (Gallery.rafId (snd (pause w g))) = false.
Proof.
  intros H. unfold pause.
  destruct (Gallery.rafId g) as [h|] eqn:Hh.
  - destruct (handle_truthy (Some h)) eqn:Ht; cbn [fst snd].
    + split; [exact (cancel_rafId w g h H Hh) | reflexivity].
    + rewrite Hh. split; [|exact Ht].
      apply (stopped_no_callback w g H). rewrite Hh. exact Ht.
  - cbn [fst snd]. rewrite Hh. split; [|reflexivity].
    apply (stopped_no_callback w g H). rewrite Hh. reflexivity.
Qed.

Lemma resume_one_loop (w : World.t num) g :
  one_loop (w, g) -> one_loop (resume w g).
Proof.
  intros H. unfold resume.
  destruct (handle_truthy (Gallery.rafId g)) eqn:Ht; cbn [negb]; [exact H|].
  apply animate_one_loop. exact (stopped_no_callback w g H Ht).
Qed.

Lemma destroy_one_loop (w : World.t num) g :
  one_loop (w, g) -> World.rafCallbacks (fst (destroy w g)) = [].
Proof.
  intros H. unfold destroy. cbn [fst].
  assert (E : World.rafCallbacks
                match Gallery.rafId g with
                | Some handle =>
                    if handle_truthy (Gallery.rafId g)
                    then cancelAnimationFrame handle w else w
                | None => w
                end = []).
  { destruct (Gallery.rafId g) as [h|] eqn:Hh.
    - destruct (handle_truthy (Some h)) eqn:Ht.
      + exact (cancel_rafId w g h H Hh).
      + apply (stopped_no_callback w g H). rewrite Hh. exact Ht.
    - apply (stopped_no_callback w g H). rewrite Hh. reflexivity. }
  destruct (Gallery.galleryContainer g); exact E.
Qed.

Lemma run_frame_one_loop (s : World.t num * Gallery.t num) :
  one_loop s -> one_loop (run_frame s).
Proof.
  destruct s as [w g]. intros [H|(h & H & _)]; unfold run_frame; cbn in H; rewrite H.
  - left. reflexivity.
  - cbn [fold_left fst snd]. apply animate_one_loop. reflexivity.
Qed.

Lemma step_one_loop a (s : World.t num * Gallery.t num) :
  one_loop s -> one_loop (step a s).
Proof.
  destruct s as [w g]. intros H. destruct a; cbn [step].
  - apply run_frame_one_loop. exact H.
  - apply dispatch_one_loop. exact H.
  - apply dispatch_one_loop. exact H.
  - apply dispatch_one_loop. exact H.
  - left. apply pause_one_loop. exact H.
  - apply resume_one_loop. exact H.
  - left. apply destroy_one_loop. exact H.
  - exact H.
  - exact H.
Qed.

Lemma run_one_loop : forall actions (s : World.t num * Gallery.t num),
  one_loop s -> one_loop (run actions s).
Proof.
  unfold run. induction actions as [|a l IH]; intros s H; cbn [fold_left].
  - exact H.
  - apply IH, step_one_loop, H.
Qed.

Lemma one_loop_length (s : World.t num * Gallery.t num) :
  one_loop s -> (List.length (World.rafCallbacks (fst s)) <= 1)%nat.
Proof. intros [H|(h & H & _)]; rewrite H; cbn; lia. Qed.

(** C7: after construction (in a browser with no frame callback waiting),
    whatever happens next (calls of [pause], [resume] and the other
    methods, frames, events), at most one frame callback is scheduled;
    [pause] after [pause] changes nothing; [resume] with the loop running
    changes nothing; and [pause] then [resume] leaves the loop running in
    exactly one callback. *)
Theorem at_most_one_frame_callback
    (fuel : nat) (w : World.t num) (options : Options.t num)
    (s0 : World.t num * Gallery.t num) :
  World.rafCallbacks w = [] ->
  constructor fuel w options = Some s0 ->
  (forall actions,
     (List.length (World.rafCallbacks (fst (run actions s0))) <= 1)%nat) /\
  (forall (w1 : World.t num) (g1 : Gallery.t num),
     pause (fst (pause w1 g1)) (snd (pause w1 g1)) = pause w1 g1) /\
  (forall (w1 : World.t num) (g1 : Gallery.t num),
     handle_truthy (Gallery.rafId g1) = true -> resume w1 g1 = (w1, g1)) /\
  (forall actions,
     let s := run actions s0 in
     let paused := pause (fst s) (snd s) in
     let resumed := resume (fst paused) (snd paused) in
     World.rafCallbacks (fst paused) = [] /\
     exists h, World.rafCallbacks (fst resumed) = [h] /\
               Gallery.rafId (snd resumed) = Some h /\ h <> 0%N).
Proof.
  intros Hraf Hnew.
  pose proof (constructor_one_loop fuel w options s0 Hraf Hnew) as H0.
  split; [|split; [|split]].
  - intros actions. apply one_loop_length, run_one_loop, H0.
  - intros w1 g1. unfold pause at 2 3 4.
    destruct (Gallery.rafId g1) as [h|] eqn:Hh.
    + destruct (handle_truthy (Some h)) eqn:Ht; cbn [fst snd].
      * reflexivity.
      * unfold pause. rewrite Hh, Ht. reflexivity.
    + cbn [fst snd]. unfold pause. rewrite Hh. reflexivity.
  - intros w1 g1 Ht. unfold resume. rewrite Ht. reflexivity.
  - intros actions. cbv zeta.
    pose proof (run_one_loop actions s0 H0) as Hs.
    destruct (run actions s0) as [w1 g1]. cbn [fst snd].
    destruct (pause_one_loop w1 g1 Hs) as [Hp Hf]. split; [exact Hp|].
    destruct (pause w1 g1) as [w2 g2]. cbn [fst snd] in *.
    unfold resume. rewrite Hf. cbn [negb].
    exists (N.succ (World.rafHandle w2)). unfold animate. cbn.
    rewrite Hp. repeat split. apply N.neq_succ_0.
Qed.
End FrameLoop.

(** C7 at a sample: the gallery of three particles. *)
Lemma at_most_one_frame_callback_sample :
  exists s0,
    World.rafCallbacks Sample.steady = [] /\
    @constructor float B64.sample 1 Sample.steady Sample.abc = Some s0 /\
    forall actions,
      (List.length (World.rafCallbacks (fst (@run float B64.sample actions s0)))
       <= 1)%nat.
Proof.
  destruct (@constructor float B64.sample 1 Sample.steady Sample.abc)
    as [s0|] eqn:E; [|vm_compute in E; discriminate].
  exists s0. split; [reflexivity|]. split; [reflexivity|].
  exact (proj1 (@at_most_one_frame_callback float B64.sample 1 Sample.steady
                  Sample.abc s0 eq_refl E)).
Defined.

(* ================================================================== *)
(** * Teardown *)

Lemma removeEventListener_other ty cb ty' cb' l :
  same_listener (ty, cb) (ty', cb') = false ->
  In (ty', cb') l -> In (ty', cb') (removeEventListener ty cb l).
Proof.
  intros Hne Hin. unfold removeEventListener. apply filter_In.
  split; [exact Hin|]. rewrite Hne. reflexivity.
Qed.

Lemma addEventListener_In ty cb l : In (ty, cb) (addEventListener ty cb l).
Proof.
  unfold addEventListener. destruct (existsb _ l) eqn:E.
  - apply existsb_exists in E. destruct E as ([ty' cb'] & Hin & Hsame).
    unfold same_listener in Hsame. cbn in Hsame.
    apply andb_true_iff in Hsame. destruct Hsame as [Ht Hc].
    destruct ty, ty'; try discriminate; destruct cb, cb'; try discriminate;
      exact Hin.
  - apply in_or_app. right. left. reflexivity.
Qed.

(** [destroy] asks to remove the method [handleResize], which is not the
    arrow function that [init] registered: that one stays. *)
Lemma destroy_keeps_resize_arrow {num : Type} (w : World.t num) (g : Gallery.t num) :
  In (resize, ResizeArrow) (World.windowListeners w) ->
  In (resize, ResizeArrow) (World.windowListeners (fst (destroy w g))).
Proof.
  intros Hin. unfold destroy. cbn [fst World.windowListeners World.set_windowListeners].
  apply removeEventListener_other; [reflexivity|].
  destruct (Gallery.galleryContainer g);
    destruct (Gallery.rafId g); try destruct (handle_truthy _); exact Hin.
Qed.

Lemma constructor_registers_resize_arrow {num : Type} {JN : JsNumber num}
    fuel (w : World.t num) options s :
  constructor fuel w options = Some s ->
  In (resize, ResizeArrow) (World.windowListeners (fst s)).
Proof.
  unfold constructor, init. cbn [createElement].
  destruct (createPhotos fuel _ _) as [[w1 g1]|]; [|discriminate].
  intros H. injection H as <-.
  cbn [fst World.windowListeners World.set_windowListeners].
  apply addEventListener_In.
Qed.

(** C3, on the gallery of three particles: after [destroy] no frame
    callback is scheduled and the container and the three images, which
    were in the document, are out of it; but the listener that [init]
    registered for [resize] is still registered, and a later resize still
    runs [handleResize], which here switches the gallery to mobile. *)
Theorem destroy_leaves_resize_listener :
  exists w g,
    @constructor float B64.sample 1 Sample.steady Sample.abc = Some (w, g) /\
    let w' := fst (destroy w g) in
    let g' := snd (destroy w g) in
    World.rafCallbacks w = [1%N] /\
    World.rafCallbacks w' = [] /\
    Gallery.galleryContainer g = Some 2%N /\
    map (fun photo => Element.node (Photo.element photo)) (Gallery.photos g)
      = [3%N; 4%N; 5%N] /\
    map (in_document w) [2%N; 3%N; 4%N; 5%N] = [true; true; true; true] /\
    map (in_document w') [2%N; 3%N; 4%N; 5%N] = [false; false; false; false] /\
    World.windowListeners w = [(resize, ResizeArrow)] /\
    World.windowListeners w' = [(resize, ResizeArrow)] /\
    Gallery.isMobile g' = false /\
    Gallery.isMobile
      (snd (@step float B64.sample (WindowResized 500%float 400%float true)
                   (w', g'))) = true.
Proof.
  eexists _, _. split; [vm_compute; reflexivity|].
  vm_compute. repeat split.
Qed.

(* ================================================================== *)
(** * The gallery on binary64 *)

Section Binary64.
Variables libm_sin libm_cos : float -> float.
Let JN : JsNumber float := B64.number libm_sin libm_cos.
Local Existing Instance JN.
Import B64 B64Facts Bounds.

Lemma bounce_base dimension v b :
  PrimFloat.leb 50 (dimension - 50)%float = true ->
  PrimFloat.is_nan b = false ->
  between 50 (dimension - 50)%float (snd (bounce dimension v b)) = true.
Proof.
  intros Hfit Hb. unfold bounce.
  change (@margin float JN) with 50%float.
  cbn [n_lt n_sub n_mul Math_max Math_min JN number].
  destruct (PrimFloat.ltb b 50 || PrimFloat.ltb (dimension - 50) b)%float eqn:Hout.
  - cbn [snd]. apply clamp_between; assumption.
  - cbn [snd]. apply orb_false_elim in Hout. destruct Hout as [H1 H2].
    pose proof (leb_not_nan_l _ _ Hfit) as E1.
    pose proof (leb_not_nan_r _ _ Hfit) as E2.
    unfold between.
    rewrite (not_ltb_leb _ _ Hb E1 H1), (not_ltb_leb _ _ E2 Hb H2). reflexivity.
Qed.

Lemma bounce_velocity dimension v b :
  PrimFloat.is_nan v = false ->
  PrimFloat.is_nan (fst (bounce dimension v b)) = false.
Proof.
  intros Hv. unfold bounce.
  cbn [n_lt n_sub n_mul lit JN number].
  destruct (_ || _); cbn [fst]; [apply mul_minus_1_not_nan|]; assumption.
Qed.

Lemma animate_photo_in_bounds w g index p :
  viewport_fits w = true -> numeric p = true ->
  in_bounds w (animate_photo w g index p) = true /\
  numeric (animate_photo w g index p) = true.
Proof.
  unfold viewport_fits, numeric. rewrite !andb_true_iff, !negb_true_iff.
  intros [[[Hw Fw] Hh] Fh] [[[Fx Fy] Nx] Ny].
  assert (Bx : between 50 (World.innerWidth w - 50)
                 (Photo.baseX (animate_photo w g index p)) = true).
  { rewrite animate_photo_baseX. apply bounce_base; [assumption|].
    apply add_finite_not_nan; assumption. }
  assert (By : between 50 (World.innerHeight w - 50)
                 (Photo.baseY (animate_photo w g index p)) = true).
  { rewrite animate_photo_baseY. apply bounce_base; [assumption|].
    apply add_finite_not_nan; assumption. }
  split.
  - unfold in_bounds. rewrite Bx, By. reflexivity.
  - repeat split.
    + exact (between_finite 50 _ _ eq_refl Fw Bx).
    + exact (between_finite 50 _ _ eq_refl Fh By).
    + rewrite animate_photo_velocityX. apply bounce_velocity; assumption.
    + rewrite animate_photo_velocityY. apply bounce_velocity; assumption.
Qed.

Lemma in_bounds_viewport w w' p :
  World.innerWidth w' = World.innerWidth w ->
  World.innerHeight w' = World.innerHeight w ->
  in_bounds w' p = in_bounds w p.
Proof. intros Hw Hh. unfold in_bounds. rewrite Hw, Hh. reflexivity. Qed.

Lemma viewport_fits_viewport w w' :
  World.innerWidth w' = World.innerWidth w ->
  World.innerHeight w' = World.innerHeight w ->
  viewport_fits w' = viewport_fits w.
Proof. intros Hw Hh. unfold viewport_fits. rewrite Hw, Hh. reflexivity. Qed.

Lemma frames_numeric n : forall w g,
  viewport_fits w = true ->
  Forall (fun p => numeric p = true) (Gallery.photos g) ->
  Forall (fun p => numeric p = true) (Gallery.photos (snd (frames n (w, g)))).
Proof.
  induction n; intros w g Hfit Hnum.
  - assumption.
  - specialize (IHn w g Hfit Hnum).
    destruct (frames_viewport n (w, g)) as [Hw Hh]. simpl in Hw, Hh.
    rewrite frames_S, animate_photos.
    apply forEach_index_Forall with (P := fun p => numeric p = true);
      [|assumption].
    intros i p Hp. apply animate_photo_in_bounds; [|assumption].
    rewrite (viewport_fits_viewport w _ Hw Hh). assumption.
Qed.

(** C1, amended: when the viewport leaves room between the margins
    ([innerWidth - 50] and [innerHeight - 50] are finite and at least
    [50], that is, the viewport is at least 100 pixels each way) and
    every particle has a finite base position and a velocity that is a
    number, then after any number [n >= 1] of consecutive frame updates
    every particle has [50 <= baseX <= innerWidth - 50] and
    [50 <= baseY <= innerHeight - 50]. *)
Theorem base_stays_in_bounds w g n :
  viewport_fits w = true ->
  Forall (fun p => numeric p = true) (Gallery.photos g) ->
  (1 <= n)%nat ->
  Forall (fun p => in_bounds w p = true) (Gallery.photos (snd (frames n (w, g)))).
Proof.
  intros Hfit Hnum Hn. destruct n as [|n]; [lia|].
  pose proof (frames_numeric n w g Hfit Hnum) as Hk.
  destruct (frames_viewport n (w, g)) as [Hw Hh]. simpl in Hw, Hh.
  rewrite frames_S, animate_photos.
  apply forEach_index_Forall with (P := fun p => numeric p = true);
    [|assumption].
  intros i p Hp. rewrite <- (in_bounds_viewport w _ _ Hw Hh).
  apply animate_photo_in_bounds; [|assumption].
  rewrite (viewport_fits_viewport w _ Hw Hh). assumption.
Qed.


(** On binary64 the flipped velocity is the opposite number. *)
Lemma bounce_flips_sign dimension v b :
  fst (bounce dimension v b) =
  if (PrimFloat.ltb b 50 || PrimFloat.ltb (dimension - 50) b)%float
  then (- v)%float else v.
Proof.
  unfold bounce. change (@margin float JN) with 50%float.
  cbn [n_lt n_sub n_mul lit JN number].
  destruct (_ || _); cbn [fst]; [apply mul_minus_1_opp | reflexivity].
Qed.

(** On binary64 too, a pointer at a distance of at least [300] has no
    influence. *)
Lemma mouse_influence_far (g : Gallery.t float) (x y : float) :
  let dx := (x - Gallery.mouseX g)%float in
  let dy := (y - Gallery.mouseY g)%float in
  PrimFloat.leb 300 (PrimFloat.sqrt (dx * dx + dy * dy)) = true ->
  mouse_influence g x y = (x, y).
Proof.
  intros dx dy H. unfold mouse_influence.
  change (@maxDistance float JN) with 300%float.
  cbn [n_lt n_add n_sub n_mul n_div Math_sqrt JN number].
  fold dx dy. rewrite (leb_not_ltb _ _ H). reflexivity.
Qed.


End Binary64.



(** The amended C1 at a sample: a 1024 by 768 viewport, one particle, three
    frames. *)
Lemma base_stays_in_bounds_sample :
  Bounds.viewport_fits Sample.desktop = true /\
  Forall (fun p => Bounds.numeric p = true)
         (Gallery.photos (Sample.gallery false 512 384)) /\
  Forall (fun p => Bounds.in_bounds Sample.desktop p = true)
         (Gallery.photos
            (snd (@frames float B64.sample 3
                    (Sample.desktop, Sample.gallery false 512 384)))).
Proof.
  assert (H1 : Bounds.viewport_fits Sample.desktop = true) by reflexivity.
  assert (H2 : Forall (fun p => Bounds.numeric p = true)
                      (Gallery.photos (Sample.gallery false 512 384)))
    by (repeat constructor).
  split; [exact H1|]. split; [exact H2|].
  apply (base_stays_in_bounds B64.poly_sin B64.poly_cos
           Sample.desktop (Sample.gallery false 512 384) 3 H1 H2).
  lia.
Defined.

(** C1 as stated fails in a viewport narrower than 100 pixels: after one
    frame update in a viewport 80 pixels wide the particle is clamped to
    [baseX = 50], which is above [innerWidth - 50 = 30]. *)
Lemma base_leaves_bounds_when_narrow :
  let p := @animate_photo float B64.sample Sample.narrow
             (Sample.gallery true 0 0) 0 Sample.photo in
  Photo.baseX p = 50%float /\
  (World.innerWidth Sample.narrow - 50 = 30)%float /\
  PrimFloat.leb (Photo.baseX p) (World.innerWidth Sample.narrow - 50) = false /\
  Bounds.in_bounds Sample.narrow p = false.
Proof. vm_compute. repeat split; reflexivity. Qed.

(* ================================================================== *)
(** * The formulas in exact arithmetic *)

Section RealReading.
Local Open Scope R_scope.

Lemma lit_int (z : Z) : @lit R _ (inject_Z z) = IZR z.
Proof. cbn. unfold Q2R. simpl. lra. Qed.

Lemma lit_0_01 : @lit R _ 0.01%Q = / 100.
Proof. cbn. unfold Q2R. simpl. lra. Qed.

Lemma ltb_true (a b : R) : Real.ltb a b = true <-> a < b.
Proof. unfold Real.ltb. destruct (Rlt_dec a b); split; intros; congruence || lra. Qed.

Lemma ltb_false (a b : R) : Real.ltb a b = false <-> a >= b.
Proof. unfold Real.ltb. destruct (Rlt_dec a b); split; intros; congruence || lra. Qed.

(** The loop of [createPhoto] on a phone of 320 by 568 pixels, over the
    real numbers and for every [Math.random]: each proposed position is
    less than 200 pixels from the centre, and no fuel completes the loop. *)
Lemma phone_position_in_centre_zone (w : World.t R) (c : nat) :
  World.innerWidth w = 320 -> World.innerHeight w = 568 ->
  0 <= World.random w c < 1 -> 0 <= World.random w (S c) < 1 ->
  accepted w c = false.
Proof.
  intros Hw Hh Hr1 Hr2. unfold accepted, candidate, isInCenterZone, Math_pow_2.
  cbn [fst snd]. rewrite Hw, Hh.
  change 100%Q with (inject_Z 100). change 200%Q with (inject_Z 200).
  change 2%Q with (inject_Z 2). rewrite !lit_int.
  cbn [n_lt n_add n_sub n_mul n_div Math_sqrt Real.number].
  set (r1 := World.random w c) in *. set (r2 := World.random w (S c)) in *.
  apply negb_false_iff, ltb_true.
  rewrite <- (sqrt_square 200) by lra.
  set (a := 100 + r1 * (320 - 100 - 100) - 320 / 2).
  set (b := 100 + r2 * (568 - 100 - 100) - 568 / 2).
  assert (Ha : -60 <= a <= 60) by (unfold a; lra).
  assert (Hb : -184 <= b <= 184) by (unfold b; lra).
  assert (Ha2 : 0 <= a * a <= 3600) by nra.
  assert (Hb2 : 0 <= b * b <= 33856) by nra.
  apply sqrt_lt_1_alt. lra.
Qed.

Lemma pick_position_phone_real fuel : forall w : World.t R,
  World.innerWidth w = 320 -> World.innerHeight w = 568 ->
  (forall c, 0 <= World.random w c < 1) ->
  pick_position fuel w = None.
Proof.
  induction fuel as [|fuel IH]; intros w Hw Hh Hr; [reflexivity|].
  rewrite pick_position_step. cbv zeta.
  rewrite (phone_position_in_centre_zone w _ Hw Hh (Hr _) (Hr _)).
  apply IH; assumption.
Qed.

Lemma scroll_influence_y (g : Gallery.t R) (index : nat) (finalX finalY : R) :
  snd (scroll_influence g index finalX finalY) =
  finalY + sin (Gallery.scrollY g * / 100 + INR index) * 20
           * Config.mobileScrollInfluence (Gallery.config g) * 100.
Proof.
  unfold scroll_influence, num_of_nat. cbn [snd].
  change 20%Q with (inject_Z 20). change 100%Q with (inject_Z 100).
  rewrite !lit_int, lit_0_01, INR_IZR_INZ. reflexivity.
Qed.

(** In exact arithmetic the y rendered in mobile mode, as a function of
    [scrollY], has the period [2 * PI / 0.01], and the particle number
    [index + delta] at [scrollY] is where the particle number [index] is
    at [scrollY + delta / 0.01]: the two waves are [delta] radians apart. *)
Lemma scroll_wave_exact_period_and_phase
    (g : Gallery.t R) (index delta : nat) (scrollY finalX finalY : R) :
  snd (scroll_influence
         (Gallery.set_scrollY (scrollY + 2 * PI / lit 0.01) g) index finalX finalY) =
  snd (scroll_influence (Gallery.set_scrollY scrollY g) index finalX finalY) /\
  snd (scroll_influence
         (Gallery.set_scrollY scrollY g) (index + delta) finalX finalY) =
  snd (scroll_influence
         (Gallery.set_scrollY (scrollY + INR delta / lit 0.01) g) index
         finalX finalY).
Proof.
  rewrite !scroll_influence_y, lit_0_01. cbn [Gallery.scrollY Gallery.set_scrollY
    Gallery.config].
  split.
  - replace ((scrollY + 2 * PI / / 100) * / 100 + INR index)
      with (scrollY * / 100 + INR index + 2 * PI) by (field; lra).
    rewrite sin_plus, sin_2PI, cos_2PI. ring.
  - rewrite plus_INR.
    replace ((scrollY + INR delta / / 100) * / 100 + INR index)
      with (scrollY * / 100 + (INR index + INR delta)) by (field; lra).
    reflexivity.
Qed.
End RealReading.

(* ================================================================== *)
(** * The particles of a frame update *)

Section FrameOfParticle.
Context {num : Type} {JN : JsNumber num}.
Local Open Scope js_scope.

(** The frame update runs the body of its loop on every particle, with the
    position of the particle in [photos] as the index. *)
Lemma animate_nth (w : World.t num) (g : Gallery.t num) (i : nat)
    (photo : Photo.t num) :
  nth_error (Gallery.photos g) i = Some photo ->
  nth_error (Gallery.photos (snd (animate w g))) i
  = Some (animate_photo w g i photo).
Proof.
  intros H. rewrite animate_photos, forEach_index_nth, H. reflexivity.
Qed.

(** C4: in mobile mode the particle number [i] of a frame update, [i]
    being its position in [photos], is rendered at its base position moved
    along y only, by [sin(scrollY * 0.01 + i) * 20 * mobileScrollInfluence
    * 100]; this for any numbers, so in particular for binary64 with the
    sine of the engine. *)
Theorem mobile_offset_is_scroll_wave
    (w : World.t num) (g : Gallery.t num) (i : nat) (photo : Photo.t num) :
  Gallery.isMobile g = true ->
  nth_error (Gallery.photos g) i = Some photo ->
  exists photo',
    nth_error (Gallery.photos (snd (animate w g))) i = Some photo' /\
    Element.rendered (Photo.element photo') =
      Some (Photo.baseX photo',
            Photo.baseY photo'
            + Math_sin (Gallery.scrollY g * lit 0.01 + num_of_nat i) * lit 20
              * Config.mobileScrollInfluence (Gallery.config g) * lit 100).
Proof.
  intros Hm Hi. exists (animate_photo w g i photo).
  split; [exact (animate_nth w g i photo Hi)|].
  rewrite animate_photo_rendered, Hm. reflexivity.
Qed.
End FrameOfParticle.

(** C4 at a sample: the third particle at [scrollY = 100], where the sine
    is taken at [100 * 0.01 + 2 = 3]. *)
Lemma mobile_offset_is_scroll_wave_sample :
  exists photo',
    nth_error (Gallery.photos
                 (snd (@animate float Engine.number Sample.desktop
                         (FrameSample.gallery true 0 0 100)))) 2
    = Some photo' /\
    Element.rendered (Photo.element photo')
    = Some (500.25, 406.1448003223947)%float.
Proof.
  destruct (@mobile_offset_is_scroll_wave float Engine.number Sample.desktop
              (FrameSample.gallery true 0 0 100) 2 FrameSample.middle
              eq_refl eq_refl) as (p' & Hn & Hr).
  exists p'. split; [exact Hn|].
  vm_compute in Hn. injection Hn as Hp. subst p'.
  rewrite Hr. vm_compute. reflexivity.
Defined.

Section FrameOnBinary64.
Variables libm_sin libm_cos : float -> float.
Let JN : JsNumber float := B64.number libm_sin libm_cos.
Local Existing Instance JN.
Import B64 B64Facts.
Local Open Scope float_scope.

(** C5: on binary64, one frame update negates the x velocity of a particle
    once if its x coordinate after the advance is below [50] or above
    [innerWidth - 50] and leaves it as it is otherwise, and the same for
    the y velocity with [innerHeight]. *)
Theorem velocity_flips_once
    (w : World.t float) (g : Gallery.t float) (i : nat) (photo : Photo.t float) :
  nth_error (Gallery.photos g) i = Some photo ->
  let advancedX := Photo.baseX photo + Photo.velocityX photo in
  let advancedY := Photo.baseY photo + Photo.velocityY photo in
  let outsideX := PrimFloat.ltb advancedX 50
                  || PrimFloat.ltb (World.innerWidth w - 50) advancedX in
  let outsideY := PrimFloat.ltb advancedY 50
                  || PrimFloat.ltb (World.innerHeight w - 50) advancedY in
  exists photo',
    nth_error (Gallery.photos (snd (animate w g))) i = Some photo' /\
    Photo.velocityX photo' =
      (if outsideX then - Photo.velocityX photo else Photo.velocityX photo) /\
    Photo.velocityY photo' =
      (if outsideY then - Photo.velocityY photo else Photo.velocityY photo).
Proof.
  intros Hi. cbv zeta. exists (animate_photo w g i photo).
  split; [exact (animate_nth w g i photo Hi)|].
  rewrite animate_photo_velocityX, animate_photo_velocityY.
  rewrite !(bounce_flips_sign libm_sin libm_cos). split; reflexivity.
Qed.

Lemma mouse_influence_near (g : Gallery.t float) (x y : float) :
  let dx := x - Gallery.mouseX g in
  let dy := y - Gallery.mouseY g in
  let d := PrimFloat.sqrt (dx * dx + dy * dy) in
  let k := Config.mouseInfluence (Gallery.config g) in
  PrimFloat.ltb d 300 = true ->
  mouse_influence g x y =
    (x + dx / d * ((1 - d / 300) * 30) * k * 100,
     y + dy / d * ((1 - d / 300) * 30) * k * 100).
Proof.
  intros dx dy d k H. unfold mouse_influence.
  change (@maxDistance float JN) with 300.
  change (@lit float JN 1) with 1. change (@lit float JN 30) with 30.
  change (@lit float JN 100) with 100.
  cbn [n_lt n_add n_sub n_mul n_div Math_sqrt JN number].
  fold dx dy. fold d. rewrite H. reflexivity.
Qed.

(** C2: on binary64, in desktop mode, for the particle number [i] of a
    frame update, with [(dx, dy)] pointing from the pointer to the base
    position of the particle after the bounce and [d] the square root of
    [dx * dx + dy * dy]: when [300 <= d] the particle is rendered at its
    base position, and when [d < 300] it is rendered at the base position
    plus [(dx / d, dy / d) * ((1 - d / 300) * 30) * mouseInfluence * 100],
    every operation rounded and grouped as the source groups them. *)
Theorem desktop_offset_is_repulsion
    (w : World.t float) (g : Gallery.t float) (i : nat) (photo : Photo.t float) :
  Gallery.isMobile g = false ->
  nth_error (Gallery.photos g) i = Some photo ->
  exists photo',
    nth_error (Gallery.photos (snd (animate w g))) i = Some photo' /\
    let dx := Photo.baseX photo' - Gallery.mouseX g in
    let dy := Photo.baseY photo' - Gallery.mouseY g in
    let d := PrimFloat.sqrt (dx * dx + dy * dy) in
    let k := Config.mouseInfluence (Gallery.config g) in
    (PrimFloat.leb 300 d = true ->
     Element.rendered (Photo.element photo')
     = Some (Photo.baseX photo', Photo.baseY photo')) /\
    (PrimFloat.ltb d 300 = true ->
     Element.rendered (Photo.element photo')
     = Some (Photo.baseX photo' + dx / d * ((1 - d / 300) * 30) * k * 100,
             Photo.baseY photo' + dy / d * ((1 - d / 300) * 30) * k * 100)).
Proof.
  intros Hm Hi. exists (animate_photo w g i photo).
  split; [exact (animate_nth w g i photo Hi)|]. cbv zeta.
  rewrite animate_photo_rendered, Hm. cbn [negb]. split; intros H.
  - exact (f_equal Some (mouse_influence_far libm_sin libm_cos g _ _ H)).
  - exact (f_equal Some (mouse_influence_near g _ _ H)).
Qed.


End FrameOnBinary64.

(** C5 at a sample: the particle in the corner crosses the left margin and
    only reaches the upper one. *)
Lemma velocity_flips_once_sample :
  exists photo',
    nth_error (Gallery.photos
                 (snd (@animate float Engine.number Sample.desktop
                         (FrameSample.gallery false 900 700 0)))) 0
    = Some photo' /\
    Photo.velocityX FrameSample.corner = (-0.5)%float /\
    Photo.velocityX photo' = 0.5%float /\
    Photo.velocityY FrameSample.corner = (-0.25)%float /\
    Photo.velocityY photo' = (-0.25)%float.
Proof.
  destruct (velocity_flips_once Engine.sin B64.poly_cos Sample.desktop
              (FrameSample.gallery false 900 700 0) 0 FrameSample.corner
              eq_refl) as (p' & Hn & Hx & Hy).
  exists p'. split; [exact Hn|].
  split; [reflexivity|]. split; [rewrite Hx; vm_compute; reflexivity|].
  split; [reflexivity|]. rewrite Hy. vm_compute. reflexivity.
Defined.

(** C2 at a sample: the particle that the frame moves to [(60.5, 299.75)],
    with the pointer one pixel above it, and with the pointer far away. *)
Lemma desktop_offset_is_repulsion_sample :
  (exists photo',
     nth_error (Gallery.photos
                  (snd (@animate float Engine.number Sample.desktop
                          (FrameSample.gallery false 60.5 298.75 0)))) 1
     = Some photo' /\
     Element.rendered (Photo.element photo') = Some (60.5, 449.25)%float) /\
  (exists photo',
     nth_error (Gallery.photos
                  (snd (@animate float Engine.number Sample.desktop
                          (FrameSample.gallery false 900 700 0)))) 1
     = Some photo' /\
     Element.rendered (Photo.element photo') = Some (60.5, 299.75)%float).
Proof.
  split.
  - destruct (desktop_offset_is_repulsion Engine.sin B64.poly_cos Sample.desktop
                (FrameSample.gallery false 60.5 298.75 0) 1 FrameSample.left
                eq_refl eq_refl) as (p' & Hn & _ & Hnear).
    exists p'. split; [exact Hn|].
    vm_compute in Hn. injection Hn as Hp. subst p'.
    rewrite Hnear; vm_compute; reflexivity.
  - destruct (desktop_offset_is_repulsion Engine.sin B64.poly_cos Sample.desktop
                (FrameSample.gallery false 900 700 0) 1 FrameSample.left
                eq_refl eq_refl) as (p' & Hn & Hfar & _).
    exists p'. split; [exact Hn|].
    vm_compute in Hn. injection Hn as Hp. subst p'.
    rewrite Hfar; vm_compute; reflexivity.
Defined.



(* ================================================================== *)
(** * The particles, the listeners and the frame loop *)

Section CreatedParticles.
Context {num : Type} {JN : JsNumber num}.

Lemma set_randomCalls_same (w : World.t num) :
  World.set_randomCalls (World.randomCalls w) w = w.
Proof. destruct w; reflexivity. Qed.

(** The loop of [createPhoto] ends on the first position accepted. *)
Lemma pick_position_result fuel : forall (w w' : World.t num) x y,
  pick_position fuel w = Some (x, y, w') ->
  exists j, (j < fuel)%nat /\
    (forall i, (i < j)%nat -> accepted w (World.randomCalls w + 2 * i)%nat = false) /\
    accepted w (World.randomCalls w + 2 * j)%nat = true /\
    (x, y) = candidate w (World.randomCalls w + 2 * j)%nat /\
    isInCenterZone w x y (lit 200) = false /\
    w' = World.set_randomCalls (World.randomCalls w + 2 * j + 2)%nat w.
Proof.
  induction fuel as [|fuel IH]; intros w w' x y H; [discriminate|].
  rewrite pick_position_step in H. cbv zeta in H.
  destruct (accepted w (World.randomCalls w)) eqn:E.
  - injection H as <- <- <-. exists 0%nat.
    rewrite Nat.mul_0_r, !Nat.add_0_r.
    split; [lia|]. split; [intros i Hi; lia|]. split; [exact E|].
    split; [symmetry; apply surjective_pairing|].
    split.
    + unfold accepted in E. apply negb_true_iff in E. exact E.
    + f_equal. lia.
  - apply IH in H. destruct H as (j & Hj & Hrej & Hacc & Hxy & Hzone & Hw).
    cbn [World.randomCalls World.set_randomCalls] in *.
    exists (S j). split; [lia|].
    replace (World.randomCalls w + 2 * S j)%nat
      with (S (S (World.randomCalls w)) + 2 * j)%nat by lia.
    split; [|split; [exact Hacc|split; [exact Hxy|split; [exact Hzone|]]]].
    + intros [|i] Hi.
      * rewrite Nat.mul_0_r, Nat.add_0_r. exact E.
      * replace (World.randomCalls w + 2 * S i)%nat
          with (S (S (World.randomCalls w)) + 2 * i)%nat by lia.
        apply (Hrej i). lia.
    + rewrite Hw. reflexivity.
Qed.

Lemma parent_of_cons (k p : N) edges x :
  parent_of ((k, p) :: edges) x = if N.eqb k x then Some p else parent_of edges x.
Proof. reflexivity. Qed.

Lemma parent_of_detach k edges x :
  parent_of (detach k edges) x = if N.eqb k x then None else parent_of edges x.
Proof.
  unfold detach. induction edges as [|[c p] l IH]; cbn [filter parent_of fst].
  - destruct (N.eqb k x); reflexivity.
  - destruct (N.eqb c k) eqn:Eck; cbn [negb parent_of].
    + apply N.eqb_eq in Eck. subst c. rewrite IH.
      destruct (N.eqb k x); reflexivity.
    + rewrite IH. destruct (N.eqb k x) eqn:Ekx; [|reflexivity].
      apply N.eqb_eq in Ekx. subst x. rewrite Eck. reflexivity.
Qed.

(** What [createPhoto] does to the browser: a node is created and draws
    are used. *)
Lemma createPhoto_world fuel (w w' : World.t num) g index photo :
  createPhoto fuel w g index = Some (photo, w') ->
  Element.node (Photo.element photo) = World.nextNode w /\
  exists calls,
    w' = World.set_randomCalls calls
           (World.set_dom (N.succ (World.nextNode w)) (World.parents w) w).
Proof.
  unfold createPhoto. cbn [createElement].
  destruct (pick_position fuel _) as [[[x y] w1]|] eqn:E; [|discriminate].
  apply pick_position_result in E.
  destruct E as (j & _ & _ & _ & _ & _ & ->).
  cbn [Math_random]. intros H. injection H as <- <-.
  split; [reflexivity|]. eexists. reflexivity.
Qed.

Lemma createPhoto_fields fuel (w w' : World.t num) g index photo :
  createPhoto fuel w g index = Some (photo, w') ->
  exists j, (j < fuel)%nat /\
    (forall i, (i < j)%nat -> accepted w (World.randomCalls w + 2 * i)%nat = false) /\
    let c := (World.randomCalls w + 2 * j)%nat in
    let cfg := Gallery.config g in
    accepted w c = true /\
    (Photo.baseX photo, Photo.baseY photo) = candidate w c /\
    Photo.x photo = Photo.baseX photo /\ Photo.y photo = Photo.baseY photo /\
    Photo.velocityX photo =
      (Math_cos (World.random w (c + 2)%nat * Math_PI * lit 2)
       * (Config.driftSpeed cfg * (lit 0.5 + World.random w (c + 3)%nat * lit 0.5)))%js /\
    Photo.velocityY photo =
      (Math_sin (World.random w (c + 2)%nat * Math_PI * lit 2)
       * (Config.driftSpeed cfg * (lit 0.5 + World.random w (c + 3)%nat * lit 0.5)))%js /\
    Photo.size photo =
      (Config.size cfg * (lit 0.8 + World.random w (c + 4)%nat * lit 0.4))%js /\
    Photo.rotation photo = (World.random w (c + 5)%nat * lit 20 - lit 10)%js /\
    Photo.rotationSpeed photo =
      ((World.random w (c + 6)%nat - lit 0.5) * lit 0.2)%js /\
    Element.width (Photo.element photo) = Photo.size photo /\
    Element.height (Photo.element photo) = Photo.size photo /\
    Element.transform_of (Photo.element photo)
      = Element.Centered (Photo.rotation photo) /\
    World.randomCalls w' = (c + 7)%nat.
Proof.
  unfold createPhoto. cbn [createElement].
  destruct (pick_position fuel _) as [[[x y] w1]|] eqn:E; [|discriminate].
  apply pick_position_result in E.
  destruct E as (j & Hj & Hrej & Hacc & Hxy & _ & ->).
  cbn [World.randomCalls World.set_dom] in *.
  cbn [Math_random World.random World.randomCalls World.set_randomCalls
       World.set_dom]. intros H. injection H as <- <-.
  exists j. split; [exact Hj|]. split; [exact Hrej|]. cbv zeta.
  cbn [Photo.baseX Photo.baseY Photo.x Photo.y Photo.velocityX Photo.velocityY
       Photo.size Photo.rotation Photo.rotationSpeed World.randomCalls
       World.set_randomCalls Photo.element Element.width Element.height
       Element.transform_of].
  set (c := (World.randomCalls w + 2 * j)%nat) in *.
  replace (c + 2 + 1)%nat with (c + 3)%nat by lia.
  replace (S (c + 2))%nat with (c + 3)%nat by lia.
  replace (S (c + 3))%nat with (c + 4)%nat by lia.
  replace (S (c + 4))%nat with (c + 5)%nat by lia.
  replace (S (c + 5))%nat with (c + 6)%nat by lia.
  replace (S (c + 6))%nat with (c + 7)%nat by lia.
  split; [exact Hacc|]. split; [exact Hxy|]. repeat split.
  all: unfold c; repeat f_equal; lia.
Qed.

(** X1: a particle that [createPhoto] returns starts at the first position
    proposed by [Math.random] that [isInCenterZone] does not place within
    200 pixels of the centre of the viewport: every proposal before it was
    in the zone, [x] and [y] are the base position, and [Math.random] has
    been called twice for each proposal and five times after them. *)
Theorem createPhoto_starts_outside_centre
    fuel (w w' : World.t num) g index photo :
  createPhoto fuel w g index = Some (photo, w') ->
  isInCenterZone w (Photo.baseX photo) (Photo.baseY photo) (lit 200) = false /\
  Photo.x photo = Photo.baseX photo /\ Photo.y photo = Photo.baseY photo /\
  exists j, (j < fuel)%nat /\
    (forall i, (i < j)%nat ->
       accepted w (World.randomCalls w + 2 * i)%nat = false) /\
    (Photo.baseX photo, Photo.baseY photo)
      = candidate w (World.randomCalls w + 2 * j)%nat /\
    World.randomCalls w' = (World.randomCalls w + 2 * j + 7)%nat.
Proof.
  intros H. apply createPhoto_fields in H.
  destruct H as (j & Hj & Hrej & Hacc & Hxy & Hx & Hy & _ & _ & _ & _ & _ & _ & _ & _ & Hcalls).
  split; [|split; [exact Hx|split; [exact Hy|]]].
  - unfold accepted in Hacc. apply negb_true_iff in Hacc.
    rewrite <- Hxy in Hacc. exact Hacc.
  - exists j. repeat split; assumption.
Qed.

Lemma createPhotos_loop_dom fuel c : forall todo i (w w' : World.t num) g g',
  Gallery.galleryContainer g = Some c ->
  createPhotos_loop fuel todo i w g = Some (w', g') ->
  g' = Gallery.set_photos (Gallery.photos g') g /\
  (World.nextNode w <= World.nextNode w')%N /\
  (exists calls edges,
     w' = World.set_randomCalls calls (World.set_dom (World.nextNode w') edges w)) /\
  (forall x, (x < World.nextNode w)%N ->
     parent_of (World.parents w') x = parent_of (World.parents w) x) /\
  exists created,
    Gallery.photos g' = Gallery.photos g ++ created /\
    NoDup (map (fun p => Element.node (Photo.element p)) created) /\
    Forall (fun p =>
              (World.nextNode w <= Element.node (Photo.element p)
               < World.nextNode w')%N /\
              parent_of (World.parents w') (Element.node (Photo.element p))
                = Some c) created.
Proof.
  induction todo as [|todo IH]; intros i w w' g g' Hc H; cbn [createPhotos_loop] in H.
  - injection H as <- <-. split; [destruct g; reflexivity|]. split; [lia|]. split.
    + exists (World.randomCalls w), (World.parents w). destruct w; reflexivity.
    + split; [reflexivity|]. exists []. rewrite app_nil_r.
      split; [reflexivity|]. split; constructor.
  - destruct (createPhoto fuel w g i) as [[photo w1]|] eqn:E; [|discriminate].
    apply createPhoto_world in E. destruct E as [Hnode [calls Hw1]].
    cbn [Gallery.galleryContainer Gallery.set_photos] in H. rewrite Hc in H.
    apply IH in H; [|exact Hc].
    destruct H as (Hc' & Hle & (calls' & edges' & Hshape) & Hold & created & Hph & Hnd & Hall).
    subst w1. cbn [appendChild World.nextNode World.parents World.set_dom
                   World.set_randomCalls] in *.
    rewrite Hnode in Hold, Hshape.
    split; [rewrite Hc' at 1; reflexivity|]. split; [lia|]. split.
    { exists calls', edges'. rewrite Hshape at 1. reflexivity. }
    split.
    { intros x Hx. rewrite Hold by lia.
      rewrite parent_of_cons, parent_of_detach.
      destruct (N.eqb (World.nextNode w) x) eqn:Ex; [|reflexivity].
      apply N.eqb_eq in Ex. lia. }
    exists (photo :: created). split; [|split].
    + rewrite Hph. cbn [Gallery.photos Gallery.set_photos].
      rewrite <- app_assoc. reflexivity.
    + cbn [map]. constructor; [|exact Hnd].
      intros Hin. apply in_map_iff in Hin. destruct Hin as (p & Hp & Hin).
      rewrite Forall_forall in Hall. destruct (Hall p Hin) as [Hr _]. lia.
    + constructor.
      * rewrite Hnode. split; [lia|].
        rewrite Hold by lia. rewrite parent_of_cons, N.eqb_refl. reflexivity.
      * eapply Forall_impl; [|exact Hall]. cbn. intros p [Hr Hp].
        split; [lia|exact Hp].
Qed.

Lemma animate_photo_node (w : World.t num) g index photo :
  Element.node (Photo.element (animate_photo w g index photo)) =
  Element.node (Photo.element photo).
Proof.
  unfold animate_photo.
  destruct (bounce (World.innerWidth w) _ _), (bounce (World.innerHeight w) _ _).
  destruct (if negb (Gallery.isMobile g) then _ else _). reflexivity.
Qed.

Lemma forEach_index_map {B : Type} (h : Photo.t num -> B)
    (f : nat -> Photo.t num -> Photo.t num) :
  (forall i p, h (f i p) = h p) ->
  forall l i, map h (forEach_index f i l) = map h l.
Proof.
  intros Hf l. induction l as [|p l IH]; intros i; cbn; [reflexivity|].
  rewrite Hf, IH. reflexivity.
Qed.

(** X3: after the constructor the container element is a child of
    [config.container], every image is a child of the container, and the
    container and the images are different nodes; [destroy] takes the
    container out of its parent and leaves the images in the container. *)
Theorem constructor_builds_dom fuel (w w' : World.t num) options g' :
  constructor fuel w options = Some (w', g') ->
  exists c,
    Gallery.galleryContainer g' = Some c /\
    parent_of (World.parents w') c = Some (Config.container (configure w options)) /\
    NoDup (c :: map (fun p => Element.node (Photo.element p)) (Gallery.photos g')) /\
    Forall (fun p => parent_of (World.parents w') (Element.node (Photo.element p))
                     = Some c) (Gallery.photos g') /\
    parent_of (World.parents (fst (destroy w' g'))) c = None /\
    Forall (fun p =>
              parent_of (World.parents (fst (destroy w' g')))
                        (Element.node (Photo.element p)) = Some c)
           (Gallery.photos g').
Proof.
  unfold constructor, init. cbn [createElement].
  set (c := World.nextNode w).
  destruct (createPhotos fuel _ _) as [[w1 g1]|] eqn:E; [|discriminate].
  unfold createPhotos in E.
  apply (createPhotos_loop_dom fuel c) in E; [|reflexivity].
  destruct E as (Hg1 & Hle & _ & Hold & created & Hph & Hnd & Hall).
  cbn [appendChild World.nextNode World.parents World.set_dom Gallery.photos
       Gallery.set_galleryContainer app] in Hle, Hold, Hph, Hall.
  intros H. injection H as <- <-.
  set (wl := if negb (Gallery.isMobile g1) then setupMouseTracking w1
             else setupScrollTracking w1).
  assert (Hpar : World.parents wl = World.parents w1)
    by (unfold wl; destruct (negb _); reflexivity).
  clearbody wl.
  unfold animate. cbn [requestAnimationFrame].
  cbn [Gallery.galleryContainer Gallery.set_rafId Gallery.set_photos Gallery.photos
       World.parents World.set_windowListeners World.set_raf].
  assert (Hnodes : map (fun p => Element.node (Photo.element p))
                     (forEach_index (animate_photo wl g1) 0 (Gallery.photos g1))
                   = map (fun p => Element.node (Photo.element p)) created).
  { rewrite forEach_index_map by (intros; apply animate_photo_node).
    rewrite Hph. reflexivity. }
  assert (Hc1 : Gallery.galleryContainer g1 = Some c) by (rewrite Hg1; reflexivity).
  assert (Hparc : parent_of (World.parents w1) c
                  = Some (Config.container (configure w options))).
  { rewrite Hold by (fold c; lia). rewrite parent_of_cons.
    fold c. rewrite N.eqb_refl. reflexivity. }
  assert (Hfresh : Forall (fun x => (c < x)%N /\ parent_of (World.parents w1) x = Some c)
                     (map (fun p => Element.node (Photo.element p)) created)).
  { apply Forall_map. eapply Forall_impl; [|exact Hall]. cbn.
    fold c. intros p [Hr Hp]. split; [lia|exact Hp]. }
  exists c. rewrite Hc1, Hpar. split; [reflexivity|]. split; [exact Hparc|].
  split; [|split; [|split]].
  - rewrite Hnodes. constructor; [|exact Hnd].
    intros Hin. rewrite Forall_forall in Hfresh. apply Hfresh in Hin. lia.
  - apply (proj1 (Forall_map (fun p => Element.node (Photo.element p))
                    (fun x => parent_of (World.parents w1) x = Some c) _)).
    rewrite Hnodes. eapply Forall_impl; [|exact Hfresh]. cbn. intros x [_ Hx].
    exact Hx.
  - unfold destroy. cbn [fst Gallery.rafId Gallery.galleryContainer
      Gallery.set_rafId Gallery.set_photos]. rewrite Hc1.
    cbn [World.parents World.set_windowListeners remove World.set_dom].
    rewrite parent_of_detach, N.eqb_refl. reflexivity.
  - unfold destroy. cbn [fst Gallery.rafId Gallery.galleryContainer
      Gallery.set_rafId Gallery.set_photos]. rewrite Hc1.
    cbn [World.parents World.set_windowListeners remove World.set_dom].
    match goal with
    | |- Forall (fun p => parent_of ?E _ = _) _ =>
        apply (proj1 (Forall_map (fun p => Element.node (Photo.element p))
                        (fun x => parent_of E x = Some c) _))
    end.
    rewrite Hnodes. eapply Forall_impl; [|exact Hfresh]. cbn. intros x [Hlt Hx].
    rewrite parent_of_detach.
    destruct (N.eqb c x) eqn:Ecx; [apply N.eqb_eq in Ecx; lia|].
    repeat match goal with
           | |- context [if ?b then _ else _] => destruct b
           end;
      cbn [World.parents cancelAnimationFrame World.set_raf
           World.set_windowListeners];
      rewrite Hpar; exact Hx.
Qed.
End CreatedParticles.

Section PhotosUnderActions.
Context {num : Type} {JN : JsNumber num}.

Lemma Forall2_same {A : Type} (R : A -> A -> Prop) :
  (forall a, R a a) -> forall l, Forall2 R l l.
Proof. intros H l. induction l; constructor; auto. Qed.

Lemma Forall2_compose {A : Type} (R : A -> A -> Prop) :
  (forall a b c, R a b -> R b c -> R a c) ->
  forall l1 l2 l3, Forall2 R l1 l2 -> Forall2 R l2 l3 -> Forall2 R l1 l3.
Proof.
  intros Ht l1 l2 l3 H12. revert l3.
  induction H12; intros l3 H23; inversion H23; subst; constructor; eauto.
Qed.

Lemma forEach_index_Forall2 (R : Photo.t num -> Photo.t num -> Prop)
    (f : nat -> Photo.t num -> Photo.t num) :
  (forall i p, R p (f i p)) -> forall l i, Forall2 R l (forEach_index f i l).
Proof. intros H l. induction l; intros i; cbn; constructor; auto. Qed.

Lemma map_Forall2 (R : Photo.t num -> Photo.t num -> Prop)
    (f : Photo.t num -> Photo.t num) :
  (forall p, R p (f p)) -> forall l, Forall2 R l (map f l).
Proof. intros H l. induction l; cbn; constructor; auto. Qed.

Lemma reposition_world : forall l (w : World.t num),
  fst (reposition w l) =
  World.set_randomCalls (World.randomCalls w + 2 * List.length l)%nat w.
Proof.
  induction l as [|p l IH]; intros w; cbn [reposition Math_random List.length].
  - rewrite Nat.mul_0_r, Nat.add_0_r. destruct w; reflexivity.
  - match goal with
    | |- context [reposition ?w1 l] =>
        pose proof (IH w1) as H; destruct (reposition w1 l) as [w2 l2]
    end.
    cbn [fst] in *. rewrite H.
    unfold World.set_randomCalls. cbn. f_equal. lia.
Qed.

Lemma reposition_photos : forall l (w : World.t num),
  Forall2 same_but_base l (snd (reposition w l)).
Proof.
  induction l as [|p l IH]; intros w; cbn [reposition Math_random].
  - constructor.
  - match goal with
    | |- context [reposition ?w1 l] =>
        pose proof (IH w1) as H; destruct (reposition w1 l) as [w2 l2]
    end.
    cbn [snd] in *. constructor; [|exact H]. repeat split.
Qed.

(** A relation between a photo and what becomes of it that every operation
    of the class respects is respected by every action. *)
Section Related.
Variable R : Photo.t num -> Photo.t num -> Prop.
Hypothesis R_refl : forall p, R p p.
Hypothesis R_trans : forall a b c, R a b -> R b c -> R a c.
Hypothesis R_animate : forall w g i p, R p (animate_photo w g i p).
Hypothesis R_reposition : forall p p', same_but_base p p' -> R p p'.
Hypothesis R_opacity : forall o p,
  R p (set_photo_element (Element.set_opacity o (Photo.element p)) p).
Hypothesis R_blur : forall b p,
  R p (set_photo_element (Element.set_blur b (Photo.element p)) p).

Lemma animate_related (w : World.t num) g :
  Forall2 R (Gallery.photos g) (Gallery.photos (snd (animate w g))).
Proof. apply forEach_index_Forall2. intros. apply R_animate. Qed.

Lemma handleResize_related (w : World.t num) g :
  Forall2 R (Gallery.photos g) (Gallery.photos (snd (handleResize w g))).
Proof.
  unfold handleResize. destruct (negb _).
  - pose proof (reposition_photos (Gallery.photos (Gallery.set_isMobile
                  (World.matchesMobile w) g)) w) as H.
    destruct (reposition w _) as [w1 l1]. cbn [snd Gallery.photos Gallery.set_photos
      Gallery.set_isMobile] in *.
    eapply Forall2_impl; [|exact H]. apply R_reposition.
  - apply Forall2_same, R_refl.
Qed.

Lemma invoke_related cb ev (s : World.t num * Gallery.t num) :
  Forall2 R (Gallery.photos (snd s)) (Gallery.photos (snd (invoke cb ev s))).
Proof.
  destruct s as [w g]. destruct cb, ev; cbn [invoke snd];
    try apply handleResize_related; apply Forall2_same, R_refl.
Qed.

Lemma dispatch_related ty ev : forall listeners (s : World.t num * Gallery.t num),
  Forall2 R (Gallery.photos (snd s))
            (Gallery.photos (snd (dispatch listeners ty ev s))).
Proof.
  unfold dispatch. induction listeners as [|l ls IH]; intros s; cbn [fold_left].
  - apply Forall2_same, R_refl.
  - destruct (EventType_eqb (fst l) ty); [|apply IH].
    eapply (Forall2_compose R R_trans); [apply invoke_related|apply IH].
Qed.

Lemma run_frame_related (s : World.t num * Gallery.t num) :
  Forall2 R (Gallery.photos (snd s)) (Gallery.photos (snd (run_frame s))).
Proof.
  destruct s as [w g]. unfold run_frame.
  generalize (World.set_raf (World.rafHandle w) [] w). cbn [snd].
  generalize (World.rafCallbacks w). intros cbs. revert g.
  induction cbs as [|h cbs IH]; intros g w1; cbn [fold_left fst snd].
  - apply Forall2_same, R_refl.
  - eapply (Forall2_compose R R_trans); [apply (animate_related w1 g)|].
    destruct (animate w1 g) as [w2 g2]. apply IH.
Qed.

Lemma step_related a (s : World.t num * Gallery.t num) :
  Forall2 R (Gallery.photos (snd s)) (Gallery.photos (snd (step a s))).
Proof.
  destruct s as [w g]. destruct a; cbn [step].
  - apply (run_frame_related (w, g)).
  - match goal with
    | |- context [dispatch ?l ?t ?e ?s] => apply (dispatch_related t e l s)
    end.
  - match goal with
    | |- context [dispatch ?l ?t ?e ?s] => apply (dispatch_related t e l s)
    end.
  - match goal with
    | |- context [dispatch ?l ?t ?e ?s] => apply (dispatch_related t e l s)
    end.
  - unfold pause. destruct (Gallery.rafId g); [destruct (handle_truthy _)|];
      apply Forall2_same, R_refl.
  - unfold resume. destruct (negb _); [apply animate_related|].
    apply Forall2_same, R_refl.
  - apply Forall2_same, R_refl.
  - cbn [snd updateOpacity Gallery.photos Gallery.set_photos Gallery.set_config].
    apply map_Forall2. intros p. apply R_opacity.
  - cbn [snd updateBlur Gallery.photos Gallery.set_photos Gallery.set_config].
    apply map_Forall2. intros p. apply R_blur.
Qed.

Lemma run_related : forall actions (s : World.t num * Gallery.t num),
  Forall2 R (Gallery.photos (snd s)) (Gallery.photos (snd (run actions s))).
Proof.
  unfold run. induction actions as [|a l IH]; intros s; cbn [fold_left].
  - apply Forall2_same, R_refl.
  - eapply (Forall2_compose R R_trans); [apply (step_related a s)|apply IH].
Qed.
End Related.
End PhotosUnderActions.

Section Lifecycle.
Context {num : Type} {JN : JsNumber num}.

(** ** Nothing replaces a particle *)

Lemma animate_photo_same_particle (w : World.t num) g i p :
  same_particle p (animate_photo w g i p).
Proof.
  unfold animate_photo.
  destruct (bounce (World.innerWidth w) _ _), (bounce (World.innerHeight w) _ _).
  destruct (if negb (Gallery.isMobile g) then _ else _). repeat split.
Qed.

(** X6: no frame, event or method call adds, removes or reorders
    particles, or changes the image, the extent, the creation position, the
    size or the rotation speed of one. *)
Theorem particles_stay_the_same (actions : list (@Action num))
    (s : World.t num * Gallery.t num) :
  Forall2 same_particle (Gallery.photos (snd s))
          (Gallery.photos (snd (run actions s))).
Proof.
  apply run_related.
  - intros p. repeat split.
  - intros a b c (H1 & H2 & H3 & H4 & H5 & H6 & H7 & H8)
                 (K1 & K2 & K3 & K4 & K5 & K6 & K7 & K8).
    repeat split; congruence.
  - intros. apply animate_photo_same_particle.
  - intros p p' (H1 & H2 & H3 & H4 & H5 & H6 & H7 & H8).
    unfold same_particle. rewrite H1. repeat split; assumption.
  - intros o p. repeat split.
  - intros b p. repeat split.
Qed.

(** ** What the operations leave of a gallery and of the listeners *)

Lemma animate_inputs (w : World.t num) g : same_inputs g (snd (animate w g)).
Proof. repeat split. Qed.

Lemma handleResize_inputs (w : World.t num) g :
  same_inputs g (snd (handleResize w g)) /\
  World.windowListeners (fst (handleResize w g)) = World.windowListeners w /\
  World.documentListeners (fst (handleResize w g)) = World.documentListeners w /\
  World.rafCallbacks (fst (handleResize w g)) = World.rafCallbacks w.
Proof.
  unfold handleResize. destruct (negb _).
  - pose proof (reposition_world (Gallery.photos (Gallery.set_isMobile
                  (World.matchesMobile w) g)) w) as H.
    destruct (reposition w _) as [w1 l1]. cbn [fst snd] in *. subst w1.
    repeat split.
  - repeat split.
Qed.

Lemma run_frame_inputs (s : World.t num * Gallery.t num) :
  same_inputs (snd s) (snd (run_frame s)) /\
  World.windowListeners (fst (run_frame s)) = World.windowListeners (fst s) /\
  World.documentListeners (fst (run_frame s)) = World.documentListeners (fst s).
Proof.
  destruct s as [w g]. unfold run_frame. cbn [fst snd].
  set (w0 := World.set_raf (World.rafHandle w) [] w).
  change (World.windowListeners w) with (World.windowListeners w0).
  change (World.documentListeners w) with (World.documentListeners w0).
  generalize w0. generalize (World.rafCallbacks w). intros cbs. revert g.
  induction cbs as [|h cbs IH]; intros g w1; cbn [fold_left fst snd].
  - repeat split.
  - destruct (IH (snd (animate w1 g)) (fst (animate w1 g)))
      as ((I1 & I2 & I3 & I4) & I5 & I6).
    destruct (animate w1 g) as [w2 g2] eqn:E. cbn [fst snd] in *.
    assert (E1 : same_inputs g g2)
      by (change g2 with (snd (w2, g2)); rewrite <- E; apply animate_inputs).
    assert (E2 : World.windowListeners w2 = World.windowListeners w1 /\
                 World.documentListeners w2 = World.documentListeners w1)
      by (change w2 with (fst (w2, g2)); rewrite <- E; split; reflexivity).
    destruct E1 as (J1 & J2 & J3 & J4), E2 as (J5 & J6).
    repeat split; congruence.
Qed.

(** ** Which events reach the gallery *)

Lemma createPhotos_loop_listeners fuel c todo i (w w' : World.t num) g g' :
  Gallery.galleryContainer g = Some c ->
  createPhotos_loop fuel todo i w g = Some (w', g') ->
  World.windowListeners w' = World.windowListeners w /\
  World.documentListeners w' = World.documentListeners w /\
  same_inputs g g' /\ Gallery.isMobile g' = Gallery.isMobile g.
Proof.
  intros Hc H. apply (createPhotos_loop_dom fuel c) in H; [|exact Hc].
  destruct H as (Hg & _ & (calls & edges & Hw) & _).
  rewrite Hw, Hg. repeat split.
Qed.

Lemma constructor_wired fuel (w : World.t num) options s0 :
  World.windowListeners w = [] -> World.documentListeners w = [] ->
  constructor fuel w options = Some s0 ->
  wired (World.matchesMobile w) (fst s0) /\
  Gallery.isMobile (snd s0) = World.matchesMobile w /\
  Gallery.mouseX (snd s0) = (World.innerWidth w / lit 2)%js /\
  Gallery.mouseY (snd s0) = (World.innerHeight w / lit 2)%js /\
  Gallery.scrollY (snd s0) = lit 0 /\
  Gallery.config (snd s0) = configure w options.
Proof.
  intros Hwl Hdl. unfold constructor, init. cbn [createElement].
  destruct (createPhotos fuel _ _) as [[w1 g1]|] eqn:E; [|discriminate].
  unfold createPhotos in E.
  apply (createPhotos_loop_listeners fuel (World.nextNode w)) in E; [|reflexivity].
  destruct E as (E1 & E2 & (E3 & E4 & E5 & E6) & E7).
  cbn in E1, E2, E3, E4, E5, E6, E7. rewrite Hwl in E1. rewrite Hdl in E2.
  intros H. injection H as <-. unfold animate. cbn [requestAnimationFrame].
  cbn [fst snd Gallery.isMobile Gallery.mouseX Gallery.mouseY Gallery.scrollY
       Gallery.config Gallery.set_rafId Gallery.set_photos].
  rewrite E3, E4, E5, E6, E7. split; [|repeat split].
  unfold wired.
  destruct (World.matchesMobile w); cbn; rewrite E1, E2; split; reflexivity.
Qed.

Lemma step_wired m a (s : World.t num * Gallery.t num) :
  wired m (fst s) ->
  wired m (fst (step a s)) /\
  Gallery.mouseX (snd (step a s)) =
    match a with
    | MouseMoved clientX _ => if m then Gallery.mouseX (snd s) else clientX
    | _ => Gallery.mouseX (snd s)
    end /\
  Gallery.mouseY (snd (step a s)) =
    match a with
    | MouseMoved _ clientY => if m then Gallery.mouseY (snd s) else clientY
    | _ => Gallery.mouseY (snd s)
    end /\
  Gallery.scrollY (snd (step a s)) =
    match a with
    | Scrolled scrollY => if m then scrollY else Gallery.scrollY (snd s)
    | _ => Gallery.scrollY (snd s)
    end.
Proof.
  destruct s as [w g]. unfold wired. cbn [fst snd]. intros [Hw Hd].
  destruct a; cbn [step].
  - destruct (run_frame_inputs (w, g)) as ((_ & I2 & I3 & I4) & I5 & I6).
    cbn [fst snd] in *. rewrite I2, I3, I4, I5, I6. repeat split; assumption.
  - cbn [World.windowListeners World.set_viewport]. rewrite Hw.
    set (w1 := World.set_viewport width height mobile w).
    destruct (handleResize_inputs w1 g) as ((_ & I2 & I3 & I4) & I5 & I6 & _).
    destruct m; cbn [dispatch fold_left fst snd EventType_eqb invoke];
      rewrite I2, I3, I4, I5, I6; repeat split; assumption.
  - rewrite Hd. destruct m;
      cbn [dispatch fold_left fst snd EventType_eqb invoke Gallery.mouseX
           Gallery.mouseY Gallery.scrollY Gallery.set_mouse];
      repeat split; assumption.
  - cbn [World.windowListeners World.set_scrollY]. rewrite Hw. destruct m;
      cbn [dispatch fold_left fst snd EventType_eqb invoke Gallery.mouseX
           Gallery.mouseY Gallery.scrollY Gallery.set_scrollY World.scrollY
           World.set_scrollY World.windowListeners World.documentListeners];
      repeat split; assumption.
  - unfold pause. destruct (Gallery.rafId g); [destruct (handle_truthy _)|];
      cbn; repeat split; assumption.
  - unfold resume. destruct (negb _); cbn; repeat split; assumption.
  - unfold destroy. cbn [fst snd].
    destruct (Gallery.galleryContainer g), (Gallery.rafId g);
      try destruct (handle_truthy _);
      cbn [World.windowListeners World.documentListeners World.set_windowListeners
           remove cancelAnimationFrame World.set_dom World.set_raf];
      rewrite Hw; destruct m; cbn; repeat split; assumption.
  - cbn. repeat split; assumption.
  - cbn. repeat split; assumption.
Qed.

Lemma run_wired m : forall actions (s : World.t num * Gallery.t num),
  wired m (fst s) -> wired m (fst (run actions s)).
Proof.
  unfold run. induction actions as [|a l IH]; intros s H; cbn [fold_left].
  - exact H.
  - apply IH. apply (step_wired m a s H).
Qed.

Lemma run_desktop_scrollY : forall actions (s : World.t num * Gallery.t num),
  wired false (fst s) ->
  Gallery.scrollY (snd (run actions s)) = Gallery.scrollY (snd s).
Proof.
  unfold run. induction actions as [|a l IH]; intros s H; cbn [fold_left].
  - reflexivity.
  - destruct (step_wired false a s H) as (H1 & _ & _ & H4).
    rewrite (IH _ H1), H4. destruct a; reflexivity.
Qed.

Lemma run_mobile_mouse : forall actions (s : World.t num * Gallery.t num),
  wired true (fst s) ->
  Gallery.mouseX (snd (run actions s)) = Gallery.mouseX (snd s) /\
  Gallery.mouseY (snd (run actions s)) = Gallery.mouseY (snd s).
Proof.
  unfold run. induction actions as [|a l IH]; intros s H; cbn [fold_left].
  - split; reflexivity.
  - destruct (step_wired true a s H) as (H1 & H2 & H3 & _).
    destruct (IH _ H1) as [I1 I2]. rewrite I1, I2, H2, H3.
    destruct a; split; reflexivity.
Qed.

(** X4: a gallery constructed on a desktop follows the pointer and nothing
    else, whatever happens to it afterwards: each [mousemove] sets [mouseX]
    and [mouseY] to the pointer, also after [destroy], and [scrollY] stays
    [0], also after a resize made the gallery mobile. *)
Theorem desktop_gallery_never_tracks_scroll
    fuel (w : World.t num) options s0 (actions : list (@Action num)) :
  World.windowListeners w = [] -> World.documentListeners w = [] ->
  World.matchesMobile w = false ->
  constructor fuel w options = Some s0 ->
  let s := run actions s0 in
  Gallery.scrollY (snd s) = lit 0 /\
  forall clientX clientY,
    Gallery.mouseX (snd (step (MouseMoved clientX clientY) s)) = clientX /\
    Gallery.mouseY (snd (step (MouseMoved clientX clientY) s)) = clientY.
Proof.
  intros Hwl Hdl Hm Hnew.
  destruct (constructor_wired fuel w options s0 Hwl Hdl Hnew)
    as (Hwired & _ & _ & _ & Hs & _).
  rewrite Hm in Hwired. cbv zeta. split.
  - rewrite (run_desktop_scrollY actions s0 Hwired). exact Hs.
  - intros clientX clientY.
    pose proof (run_wired false actions s0 Hwired) as Hr.
    destruct (step_wired false (MouseMoved clientX clientY) _ Hr)
      as (_ & H2 & H3 & _).
    split; assumption.
Qed.

(** X5: a gallery constructed on a mobile follows the scroll position and
    nothing else, whatever happens to it afterwards: each [scroll] sets
    [scrollY] to [window.scrollY], and [mouseX], [mouseY] stay at the centre
    of the viewport at construction, also after a resize made the gallery a
    desktop one. *)
Theorem mobile_gallery_never_tracks_pointer
    fuel (w : World.t num) options s0 (actions : list (@Action num)) :
  World.windowListeners w = [] -> World.documentListeners w = [] ->
  World.matchesMobile w = true ->
  constructor fuel w options = Some s0 ->
  let s := run actions s0 in
  Gallery.mouseX (snd s) = (World.innerWidth w / lit 2)%js /\
  Gallery.mouseY (snd s) = (World.innerHeight w / lit 2)%js /\
  forall scrollY, Gallery.scrollY (snd (step (Scrolled scrollY) s)) = scrollY.
Proof.
  intros Hwl Hdl Hm Hnew.
  destruct (constructor_wired fuel w options s0 Hwl Hdl Hnew)
    as (Hwired & _ & Hx & Hy & _ & _).
  rewrite Hm in Hwired. cbv zeta.
  destruct (run_mobile_mouse actions s0 Hwired) as [Rx Ry].
  split; [rewrite Rx; exact Hx|]. split; [rewrite Ry; exact Hy|].
  intros scrollY.
  pose proof (run_wired true actions s0 Hwired) as Hr.
  destruct (step_wired true (Scrolled scrollY) _ Hr) as (_ & _ & _ & H4).
  exact H4.
Qed.

(** ** Opacity and blur *)

Lemma styled_related (g g' : Gallery.t num) :
  Gallery.config g' = Gallery.config g ->
  Forall2 (fun p p' =>
             Element.opacity (Photo.element p') = Element.opacity (Photo.element p) /\
             Element.blur (Photo.element p') = Element.blur (Photo.element p))
          (Gallery.photos g) (Gallery.photos g') ->
  styled g -> styled g'.
Proof.
  unfold styled. intros -> H. induction H as [|p p' l l' [Ho Hb] _ IH]; intros Hs.
  - constructor.
  - inversion Hs as [|? ? [So Sb] Hl]; subst. constructor; [|apply IH, Hl].
    rewrite Ho, Hb. split; assumption.
Qed.

Lemma animate_photo_style (w : World.t num) g i p :
  Element.opacity (Photo.element (animate_photo w g i p))
    = Element.opacity (Photo.element p) /\
  Element.blur (Photo.element (animate_photo w g i p))
    = Element.blur (Photo.element p).
Proof.
  unfold animate_photo.
  destruct (bounce (World.innerWidth w) _ _), (bounce (World.innerHeight w) _ _).
  destruct (if negb (Gallery.isMobile g) then _ else _). split; reflexivity.
Qed.

Lemma animate_styled (w : World.t num) g : styled g -> styled (snd (animate w g)).
Proof.
  apply styled_related; [reflexivity|].
  apply animate_related. intros. apply animate_photo_style.
Qed.

Lemma handleResize_styled (w : World.t num) g :
  styled g -> styled (snd (handleResize w g)).
Proof.
  apply styled_related; [apply handleResize_inputs|].
  apply handleResize_related.
  - intros p. split; reflexivity.
  - intros p p' (H & _). rewrite H. split; reflexivity.
Qed.

Lemma createPhotos_loop_styled fuel : forall todo i (w w' : World.t num) g g',
  createPhotos_loop fuel todo i w g = Some (w', g') -> styled g -> styled g'.
Proof.
  induction todo as [|todo IH]; intros i w w' g g' H Hs; cbn [createPhotos_loop] in H.
  - injection H as <- <-. exact Hs.
  - destruct (createPhoto fuel w g i) as [[photo w1]|] eqn:E; [|discriminate].
    apply IH in H; [exact H|]. unfold styled in *.
    cbn [Gallery.photos Gallery.config Gallery.set_photos].
    apply Forall_app. split; [exact Hs|]. constructor; [|constructor].
    unfold createPhoto in E. cbn [createElement] in E.
    destruct (pick_position fuel _) as [[[x y] w2]|]; [|discriminate].
    cbn [Math_random] in E. injection E as <- _. split; reflexivity.
Qed.

Lemma step_styled a (s : World.t num * Gallery.t num) :
  styled (snd s) -> styled (snd (step a s)).
Proof.
  destruct s as [w g]. cbn [snd]. intros Hs. destruct a; cbn [step].
  - unfold run_frame.
    generalize (World.set_raf (World.rafHandle w) [] w).
    generalize (World.rafCallbacks w). intros cbs. revert g Hs.
    induction cbs as [|h cbs IH]; intros g Hs w1; cbn [fold_left fst snd].
    + exact Hs.
    + pose proof (animate_styled w1 g Hs) as H.
      destruct (animate w1 g) as [w2 g2]. apply IH. exact H.
  - unfold dispatch. generalize (World.set_viewport width height mobile w).
    intros w1. generalize (World.windowListeners w1). intros ls. revert w1 g Hs.
    induction ls as [|l ls IH]; intros w1 g Hs; cbn [fold_left]; [exact Hs|].
    destruct (EventType_eqb (fst l) resize); [|apply IH, Hs].
    destruct l as [ty cb]. destruct cb; cbn [snd invoke]; try (apply IH, Hs).
    pose proof (handleResize_styled w1 g Hs) as H.
    destruct (handleResize w1 g) as [w2 g2]. apply IH, H.
  - unfold dispatch. generalize (World.documentListeners w). intros ls. revert w g Hs.
    induction ls as [|l ls IH]; intros w1 g Hs; cbn [fold_left]; [exact Hs|].
    destruct (EventType_eqb (fst l) mousemove); [|apply IH, Hs].
    destruct l as [ty cb]. destruct cb; cbn [snd invoke]; try (apply IH, Hs).
    pose proof (handleResize_styled w1 g Hs) as H.
    destruct (handleResize w1 g) as [w2 g2]. apply IH, H.
  - unfold dispatch. generalize (World.set_scrollY scrollY w).
    intros w1. generalize (World.windowListeners w1). intros ls. revert w1 g Hs.
    induction ls as [|l ls IH]; intros w1 g Hs; cbn [fold_left]; [exact Hs|].
    destruct (EventType_eqb (fst l) scroll); [|apply IH, Hs].
    destruct l as [ty cb]. destruct cb; cbn [snd invoke]; try (apply IH, Hs).
    pose proof (handleResize_styled w1 g Hs) as H.
    destruct (handleResize w1 g) as [w2 g2]. apply IH, H.
  - unfold pause. destruct (Gallery.rafId g); [destruct (handle_truthy _)|];
      exact Hs.
  - unfold resume. destruct (negb _); [apply animate_styled|]; exact Hs.
  - exact Hs.
  - unfold styled in *. cbn [snd updateOpacity Gallery.photos Gallery.config
      Gallery.set_photos Gallery.set_config set_config_opacity Config.opacity
      Config.blur].
    apply Forall_map. eapply Forall_impl; [|exact Hs]. cbn. intros p [_ Hb].
    split; [reflexivity|exact Hb].
  - unfold styled in *. cbn [snd updateBlur Gallery.photos Gallery.config
      Gallery.set_photos Gallery.set_config set_config_blur Config.opacity
      Config.blur].
    apply Forall_map. eapply Forall_impl; [|exact Hs]. cbn. intros p [Ho _].
    split; [exact Ho|reflexivity].
Qed.

(** X13: after the constructor and any frames, events and method calls,
    every image has the opacity and the blur of the configuration;
    [updateOpacity] sets the opacity of every image and leaves the blur,
    [updateBlur] sets the blur of every image and leaves the opacity. *)
Theorem elements_follow_config_style
    fuel (w : World.t num) options s0 (actions : list (@Action num)) :
  constructor fuel w options = Some s0 ->
  let s := run actions s0 in
  styled (snd s) /\
  (forall opacity,
     Forall (fun p =>
               Element.opacity (Photo.element p) = opacity /\
               Element.blur (Photo.element p) = Config.blur (Gallery.config (snd s)))
            (Gallery.photos (snd (step (Call_updateOpacity opacity) s)))) /\
  (forall blur,
     Forall (fun p =>
               Element.opacity (Photo.element p)
                 = Config.opacity (Gallery.config (snd s)) /\
               Element.blur (Photo.element p) = blur)
            (Gallery.photos (snd (step (Call_updateBlur blur) s)))).
Proof.
  intros Hnew. cbv zeta.
  assert (Hrun : styled (snd (run actions s0))); [|split; [exact Hrun|split]].
  2: { intros o. pose proof (step_styled (Call_updateOpacity o) _ Hrun) as H.
       destruct (run actions s0) as [w1 g1]. exact H. }
  2: { intros b. pose proof (step_styled (Call_updateBlur b) _ Hrun) as H.
       destruct (run actions s0) as [w1 g1]. exact H. }
  assert (H0 : styled (snd s0)).
  { revert Hnew. unfold constructor, init. cbn [createElement].
    destruct (createPhotos fuel _ _) as [[w1 g1]|] eqn:E; [|discriminate].
    unfold createPhotos in E. apply createPhotos_loop_styled in E; [|constructor].
    intros H. injection H as <-.
    exact (animate_styled
             (if negb (Gallery.isMobile g1) then setupMouseTracking w1
              else setupScrollTracking w1) g1 E). }
  revert s0 H0 Hnew. unfold run.
  induction actions as [|a l IH]; intros s0 H0 _; cbn [fold_left]; [exact H0|].
  pose proof (step_styled a s0 H0) as H1. revert H1. generalize (step a s0).
  clear IH. intros s1. revert s1.
  induction l as [|b l IHl]; intros s1 H1; cbn [fold_left]; [exact H1|].
  apply IHl. apply step_styled, H1.
Qed.

(** ** Pausing *)

Lemma same_motion_trans (a b c : Photo.t num) :
  same_motion a b -> same_motion b c -> same_motion a c.
Proof.
  intros (H1 & H2 & H3 & H4 & H5) (K1 & K2 & K3 & K4 & K5).
  repeat split; congruence.
Qed.

Lemma quiet_step m a (s : World.t num * Gallery.t num) :
  wired m (fst s) -> World.rafCallbacks (fst s) = [] -> quiet a = true ->
  World.rafCallbacks (fst (step a s)) = [] /\
  Forall2 same_motion (Gallery.photos (snd s)) (Gallery.photos (snd (step a s))).
Proof.
  destruct s as [w g]. unfold wired. cbn [fst snd]. intros [Hw Hd] Hraf Hq.
  assert (Hsame : Forall2 same_motion (Gallery.photos g) (Gallery.photos g))
    by (apply Forall2_same; intros p; repeat split).
  destruct a; cbn [step]; try discriminate Hq.
  - unfold run_frame. rewrite Hraf. cbn. split; [reflexivity|exact Hsame].
  - rewrite Hd. destruct m; cbn; split; assumption.
  - cbn [World.windowListeners World.set_scrollY]. rewrite Hw.
    destruct m; cbn; split; assumption.
  - unfold pause. destruct (Gallery.rafId g); [destruct (handle_truthy _)|];
      cbn; rewrite ?Hraf; split; try reflexivity; assumption.
  - unfold destroy. cbn [fst snd]. split; [|exact Hsame].
    destruct (Gallery.galleryContainer g), (Gallery.rafId g);
      try destruct (handle_truthy _); cbn; rewrite Hraf; reflexivity.
  - cbn. split; [exact Hraf|]. apply map_Forall2. intros p. repeat split.
  - cbn. split; [exact Hraf|]. apply map_Forall2. intros p. repeat split.
Qed.

Lemma quiet_run m : forall actions (s : World.t num * Gallery.t num),
  wired m (fst s) -> World.rafCallbacks (fst s) = [] ->
  forallb quiet actions = true ->
  Forall2 same_motion (Gallery.photos (snd s))
          (Gallery.photos (snd (run actions s))).
Proof.
  unfold run. induction actions as [|a l IH]; intros s Hw Hraf Hq; cbn [fold_left].
  - apply Forall2_same. intros p. repeat split.
  - cbn [forallb] in Hq. apply andb_true_iff in Hq. destruct Hq as [Ha Hl].
    destruct (quiet_step m a s Hw Hraf Ha) as [H1 H2].
    eapply (Forall2_compose same_motion same_motion_trans); [exact H2|].
    apply IH; [apply (step_wired m a s Hw) | exact H1 | exact Hl].
Qed.

Lemma pause_photos (w : World.t num) g :
  Gallery.photos (snd (pause w g)) = Gallery.photos g.
Proof.
  unfold pause. destruct (Gallery.rafId g); [destruct (handle_truthy _)|];
    reflexivity.
Qed.

(** X14: after [pause()] no particle moves or turns, whatever frames,
    pointer or scroll events and calls other than [resume()] follow, as long
    as the window is not resized. *)
Theorem paused_gallery_does_not_move
    fuel (w : World.t num) options s0 (before after : list (@Action num)) :
  World.windowListeners w = [] -> World.documentListeners w = [] ->
  World.rafCallbacks w = [] ->
  constructor fuel w options = Some s0 ->
  forallb quiet after = true ->
  let s := run before s0 in
  let paused := pause (fst s) (snd s) in
  Forall2 same_motion (Gallery.photos (snd s))
          (Gallery.photos (snd (run after paused))).
Proof.
  intros Hwl Hdl Hraf Hnew Hq. cbv zeta.
  destruct (constructor_wired fuel w options s0 Hwl Hdl Hnew) as (Hwired & _).
  pose proof (run_wired _ before s0 Hwired) as Hw1.
  pose proof (run_one_loop before s0
                (constructor_one_loop fuel w options s0 Hraf Hnew)) as Hloop.
  destruct (run before s0) as [w1 g1]. cbn [fst snd] in *.
  destruct (pause_one_loop w1 g1 Hloop) as [Hp _].
  destruct (step_wired _ Call_pause (w1, g1) Hw1) as (Hw2 & _).
  cbn [step fst snd] in Hw2.
  rewrite <- (pause_photos w1 g1).
  apply (quiet_run _ after (pause w1 g1) Hw2 Hp Hq).
Qed.

(** X15: [destroy()] stops the frame loop and leaves [rafId] as it is, so
    that [resume()] after it does nothing if the loop was running; but
    [pause()] and then [resume()] start the loop again, on the particles of
    the removed container. *)
Theorem destroyed_gallery_can_be_restarted (w : World.t num) (g : Gallery.t num) :
  one_loop (w, g) ->
  let destroyed := destroy w g in
  let paused := pause (fst destroyed) (snd destroyed) in
  let resumed := resume (fst paused) (snd paused) in
  World.rafCallbacks (fst destroyed) = [] /\
  (handle_truthy (Gallery.rafId g) = true ->
   resume (fst destroyed) (snd destroyed) = destroyed) /\
  exists h, World.rafCallbacks (fst resumed) = [h] /\
            Gallery.rafId (snd resumed) = Some h /\ h <> 0%N.
Proof.
  intros Hloop. cbv zeta.
  pose proof (destroy_one_loop w g Hloop) as Hd.
  split; [exact Hd|]. split.
  - intros Ht. unfold resume. cbn [destroy snd]. rewrite Ht. reflexivity.
  - assert (Hl : one_loop (destroy w g)) by (left; exact Hd).
    destruct (destroy w g) as [w1 g1]. cbn [fst snd].
    destruct (pause_one_loop w1 g1 Hl) as [Hp Hf].
    destruct (pause w1 g1) as [w2 g2]. cbn [fst snd] in *.
    unfold resume. rewrite Hf. cbn [negb].
    exists (N.succ (World.rafHandle w2)). unfold animate. cbn.
    rewrite Hp. repeat split. apply N.neq_succ_0.
Qed.

(** ** Resizing *)

Lemma reposition_nth : forall l (w : World.t num) k p',
  nth_error (snd (reposition w l)) k = Some p' ->
  Photo.baseX p' =
    (World.random w (World.randomCalls w + 2 * k)%nat * World.innerWidth w)%js /\
  Photo.baseY p' =
    (World.random w (World.randomCalls w + 2 * k + 1)%nat * World.innerHeight w)%js.
Proof.
  induction l as [|p l IH]; intros w k p' H; cbn [reposition Math_random] in H.
  - destruct k; discriminate.
  - match type of H with
    | context [reposition ?w1 l] =>
        pose proof (IH w1) as IH1; destruct (reposition w1 l) as [w2 l2]
    end.
    cbn [snd] in *. destruct k as [|k]; cbn [nth_error] in H.
    + injection H as <-. cbn [Photo.baseX Photo.baseY].
      rewrite Nat.mul_0_r, !Nat.add_0_r, Nat.add_1_r. split; reflexivity.
    + destruct (IH1 k p' H) as [Hx Hy].
      cbn [World.random World.randomCalls World.innerWidth World.innerHeight
           World.set_randomCalls] in Hx, Hy.
      replace (World.randomCalls w + 2 * S k)%nat
        with (S (S (World.randomCalls w + 2 * k)))%nat by lia.
      replace (S (S (World.randomCalls w)) + 2 * k)%nat
        with (S (S (World.randomCalls w + 2 * k)))%nat in Hx, Hy by lia.
      split; assumption.
Qed.

(** X12: [handleResize] does nothing while the media query agrees with
    [isMobile]; when it does not, [isMobile] follows the query and each
    particle gets a new base position, [Math.random() * innerWidth] by
    [Math.random() * innerHeight] from the next two draws, with neither
    margin nor centre zone, and keeps everything else. *)
Theorem handleResize_redraws_on_mode_switch (w : World.t num) (g : Gallery.t num) :
  (Gallery.isMobile g = World.matchesMobile w -> handleResize w g = (w, g)) /\
  (Gallery.isMobile g <> World.matchesMobile w ->
   let w' := fst (handleResize w g) in
   let g' := snd (handleResize w g) in
   Gallery.isMobile g' = World.matchesMobile w /\
   w' = World.set_randomCalls
          (World.randomCalls w + 2 * List.length (Gallery.photos g))%nat w /\
   Forall2 same_but_base (Gallery.photos g) (Gallery.photos g') /\
   forall k p', nth_error (Gallery.photos g') k = Some p' ->
     Photo.baseX p' =
       (World.random w (World.randomCalls w + 2 * k)%nat * World.innerWidth w)%js /\
     Photo.baseY p' =
       (World.random w (World.randomCalls w + 2 * k + 1)%nat
        * World.innerHeight w)%js).
Proof.
  split.
  - intros H. unfold handleResize. cbn [Gallery.isMobile Gallery.set_isMobile].
    rewrite H, Bool.eqb_reflx. cbn [negb]. rewrite <- H. destruct g; reflexivity.
  - intros H. cbv zeta. unfold handleResize.
    cbn [Gallery.isMobile Gallery.set_isMobile].
    assert (E : Bool.eqb (Gallery.isMobile g) (World.matchesMobile w) = false).
    { destruct (Gallery.isMobile g), (World.matchesMobile w);
        try reflexivity; congruence. }
    rewrite E. cbn [negb Gallery.photos Gallery.set_isMobile].
    pose proof (reposition_world (Gallery.photos g) w) as Hw.
    pose proof (reposition_photos (Gallery.photos g) w) as Hp.
    pose proof (reposition_nth (Gallery.photos g) w) as Hn.
    destruct (reposition w (Gallery.photos g)) as [w1 l1]. cbn [fst snd] in *.
    split; [reflexivity|]. split; [exact Hw|]. split; [exact Hp|exact Hn].
Qed.
End Lifecycle.

Section DriftSpeed.
Variables libm_sin libm_cos : float -> float.
Let JN : JsNumber float := B64.number libm_sin libm_cos.
Local Existing Instance JN.

Lemma abs_opp v : PrimFloat.abs (- v)%float = PrimFloat.abs v.
Proof.
  apply Prim2SF_inj. rewrite !abs_spec, opp_spec.
  destruct (Prim2SF v); reflexivity.
Qed.

(** X7: on binary64, no frame, event or method call changes how fast a
    particle drifts along either axis: the absolute values of [velocityX]
    and [velocityY] are those it had before. *)
Theorem drift_speed_is_kept (actions : list (@Action float))
    (s : World.t float * Gallery.t float) :
  Forall2 same_speed (Gallery.photos (snd s))
          (Gallery.photos (snd (run actions s))).
Proof.
  apply run_related.
  - intros p. split; reflexivity.
  - intros a b c [H1 H2] [K1 K2]. split; congruence.
  - intros w g i p. unfold same_speed.
    rewrite animate_photo_velocityX, animate_photo_velocityY.
    rewrite !(bounce_flips_sign libm_sin libm_cos).
    split; destruct (_ || _); try apply abs_opp; reflexivity.
  - intros p p' (_ & _ & _ & Hx & Hy & _). unfold same_speed.
    rewrite Hx, Hy. split; reflexivity.
  - intros o p. split; reflexivity.
  - intros b p. split; reflexivity.
Qed.
End DriftSpeed.

Section Rotation.
Context {num : Type} {JN : JsNumber num}.
Local Open Scope js_scope.

Lemma animate_photo_turn (w : World.t num) (g : Gallery.t num) (index : nat)
    (photo : Photo.t num) :
  turned_by 1 photo (animate_photo w g index photo).
Proof.
  unfold turned_by, animate_photo.
  destruct (bounce (World.innerWidth w) _ _), (bounce (World.innerHeight w) _ _).
  destruct (if negb (Gallery.isMobile g) then _ else _) as [fx fy].
  cbn [Photo.rotation Photo.rotationSpeed Photo.element Element.transform_of
       Element.set_transform Nat.iter nat_rect].
  split; [reflexivity|]. split; [reflexivity|]. intros _.
  eexists _, _. reflexivity.
Qed.

Lemma turned_S (n : nat) (p q r : Photo.t num) :
  turned_by n p q -> turned_by 1 q r -> turned_by (S n) p r.
Proof.
  intros (Hs & Hr & _) (Hs' & Hr' & Ht). unfold turned_by.
  split; [congruence|]. split.
  - rewrite Hr', Hs, Hr. reflexivity.
  - intros _. apply Ht. discriminate.
Qed.

Lemma Forall2_chain {A : Type} (R1 R2 R3 : A -> A -> Prop) :
  (forall a b c, R1 a b -> R2 b c -> R3 a c) ->
  forall l1 l2 l3, Forall2 R1 l1 l2 -> Forall2 R2 l2 l3 -> Forall2 R3 l1 l3.
Proof.
  intros Ht l1 l2 l3 H12. revert l3.
  induction H12; intros l3 H23; inversion H23; subst; constructor; eauto.
Qed.

(** X9: [n] frame updates add the rotation speed of each particle to its
    rotation [n] times, one addition after the other and with no reduction
    modulo 360, leave the rotation speed as it is, and render the element
    at the rotation reached; this for any numbers. *)
Theorem rotation_after_frames (n : nat) (s : World.t num * Gallery.t num) :
  Forall2 (turned_by n) (Gallery.photos (snd s))
          (Gallery.photos (snd (frames n s))).
Proof.
  induction n as [|n IH].
  - apply Forall2_same. intros p. unfold turned_by.
    split; [reflexivity|]. split; [reflexivity|]. intros H. contradiction.
  - rewrite frames_S, animate_photos.
    eapply (Forall2_chain (turned_by n) (turned_by 1) (turned_by (S n)) (turned_S n));
      [exact IH|].
    apply forEach_index_Forall2. intros i p. apply animate_photo_turn.
Qed.
End Rotation.

Section ClampedAdvance.
Variables libm_sin libm_cos : float -> float.
Let JN : JsNumber float := B64.number libm_sin libm_cos.
Local Existing Instance JN.
Import B64 B64Facts.
Local Open Scope float_scope.

(** Two numbers neither of which is below the other are the same number,
    unless they are zeros. *)
Lemma SFcompare_Eq x y :
  SFcompare x y = Some Eq ->
  x = y \/ (exists s t, x = S754_zero s /\ y = S754_zero t).
Proof.
  destruct x as [s|s| |s m e], y as [t|t| |t n f]; simpl; try discriminate;
    try (destruct s; discriminate); try (destruct t; discriminate).
  - intros _. right. eexists _, _. split; reflexivity.
  - destruct s, t; try discriminate; intros _; left; reflexivity.
  - destruct s, t; try discriminate.
    + destruct (Z.compare_spec e f) as [->| |]; simpl; try discriminate.
      intros H. injection H as H. apply CompOpp_iff in H. simpl in H.
      apply Pos.compare_eq in H. subst. left. reflexivity.
    + destruct (Z.compare_spec e f) as [->| |]; simpl; try discriminate.
      intros H. injection H as H. apply Pos.compare_eq in H. subst.
      left. reflexivity.
Qed.

Lemma not_ltb_eq x y :
  PrimFloat.is_nan x = false -> PrimFloat.is_nan y = false ->
  PrimFloat.is_zero x = false ->
  PrimFloat.ltb x y = false -> PrimFloat.ltb y x = false -> x = y.
Proof.
  rewrite !is_nan_spec. unfold PrimFloat.is_zero.
  rewrite eqb_spec, !ltb_spec. unfold SFltb, SFeqb. intros Ex Ey Hz.
  rewrite (SFcompare_swap (Prim2SF x) (Prim2SF y)).
  destruct (SFcompare_defined _ _ Ex Ey) as [c Hc]. rewrite Hc.
  destruct c; simpl; try discriminate. intros _ _.
  apply SFcompare_Eq in Hc. destruct Hc as [H|(s & t & Hx & Hy)].
  - apply Prim2SF_inj, H.
  - rewrite Hx in Hz. change (Prim2SF 0) with (S754_zero false) in Hz.
    simpl in Hz. discriminate.
Qed.

Lemma zero_below_50 b :
  PrimFloat.is_zero b = true -> PrimFloat.ltb b 50 = true.
Proof.
  unfold PrimFloat.is_zero. rewrite eqb_spec, ltb_spec. unfold SFeqb, SFltb.
  change (Prim2SF 0) with (S754_zero false).
  destruct (Prim2SF b) as [s|s| |s m e]; intros H.
  - clear H. vm_compute. reflexivity.
  - simpl in H. destruct s; discriminate H.
  - simpl in H. discriminate H.
  - simpl in H. destruct s; discriminate H.
Qed.

(** Clamping a number that is not outside the interval gives the number
    itself, also when it is not a number. *)
Lemma clamp_inside hi b :
  PrimFloat.is_nan hi = false ->
  PrimFloat.ltb b 50 = false -> PrimFloat.ltb hi b = false ->
  max 50 (min hi b) = b.
Proof.
  intros Ehi Hlo Hhi.
  destruct (PrimFloat.is_nan b) eqn:Eb.
  - assert (Hb : b = PrimFloat.nan).
    { apply nan_spec. rewrite is_nan_spec in Eb.
      destruct (Prim2SF b); try discriminate. reflexivity. }
    subst b. unfold min. rewrite Ehi. reflexivity.
  - assert (Hz : PrimFloat.is_zero b = false).
    { destruct (PrimFloat.is_zero b) eqn:Hz; [|reflexivity].
      rewrite (zero_below_50 b Hz) in Hlo. discriminate. }
    assert (Hmin : min hi b = b).
    { unfold min. rewrite Ehi, Eb, Hhi. cbn [orb].
      destruct (PrimFloat.ltb b hi) eqn:Hbh; [reflexivity|].
      rewrite <- (not_ltb_eq b hi Eb Ehi Hz Hbh Hhi).
      destruct (_ && _); reflexivity. }
    rewrite Hmin. unfold max. rewrite Eb. cbn [PrimFloat.is_nan orb].
    change (PrimFloat.is_nan 50 || false) with false. cbv iota.
    destruct (PrimFloat.ltb 50 b) eqn:H50; [reflexivity|]. rewrite Hlo.
    change (PrimFloat.is_zero 50 && PrimFloat.get_sign 50) with false.
    cbv iota. apply not_ltb_eq; try assumption; reflexivity.
Qed.

Lemma bounce_is_clamp dimension v b :
  PrimFloat.is_nan (dimension - 50) = false ->
  snd (bounce dimension v b) = max 50 (min (dimension - 50) b).
Proof.
  intros Ehi. unfold bounce. change (@margin float JN) with 50.
  cbn [n_lt n_sub n_mul Math_max Math_min JN number].
  destruct (PrimFloat.ltb b 50) eqn:Hlo; [reflexivity|].
  destruct (PrimFloat.ltb (dimension - 50) b) eqn:Hhi; [reflexivity|].
  cbn [orb snd]. symmetry. apply clamp_inside; assumption.
Qed.

(** X8: on binary64, in a viewport whose extents less [50] are numbers, a
    frame update moves the base position of each particle by its velocity
    and clamps it: each coordinate is [Math.max(50, Math.min(extent - 50,
    base + velocity))], whether the edge test fires or not. *)
Theorem base_is_advance_clamped
    (w : World.t float) (g : Gallery.t float) (i : nat) (photo : Photo.t float) :
  PrimFloat.is_nan (World.innerWidth w - 50) = false ->
  PrimFloat.is_nan (World.innerHeight w - 50) = false ->
  nth_error (Gallery.photos g) i = Some photo ->
  exists photo',
    nth_error (Gallery.photos (snd (animate w g))) i = Some photo' /\
    Photo.baseX photo' =
      max 50 (min (World.innerWidth w - 50)
                  (Photo.baseX photo + Photo.velocityX photo)) /\
    Photo.baseY photo' =
      max 50 (min (World.innerHeight w - 50)
                  (Photo.baseY photo + Photo.velocityY photo)).
Proof.
  intros Hw Hh Hi. exists (animate_photo w g i photo).
  split; [exact (animate_nth w g i photo Hi)|].
  rewrite animate_photo_baseX, animate_photo_baseY.
  rewrite (bounce_is_clamp _ _ _ Hw), (bounce_is_clamp _ _ _ Hh).
  split; reflexivity.
Qed.
End ClampedAdvance.

(** ** Samples *)

(** X1 at a sample: the first particle of a desktop gallery. *)
Lemma createPhoto_starts_outside_centre_sample :
  exists photo w',
    @createPhoto float B64.sample 1 Sample.steady (Sample.gallery false 0 0) 0
      = Some (photo, w') /\
    @isInCenterZone float B64.sample Sample.steady
      (Photo.baseX photo) (Photo.baseY photo) 200%float = false.
Proof.
  destruct (@createPhoto float B64.sample 1 Sample.steady
              (Sample.gallery false 0 0) 0) as [[photo w']|] eqn:E.
  - exists photo, w'. split; [reflexivity|].
    exact (proj1 (@createPhoto_starts_outside_centre float B64.sample 1
                    Sample.steady w' (Sample.gallery false 0 0) 0%nat photo E)).
  - vm_compute in E. discriminate E.
Defined.

(** X3 at a sample: three images mounted under [document.body]. *)
Lemma constructor_builds_dom_sample :
  exists w' g' c,
    @constructor float B64.sample 1 Sample.steady Sample.abc = Some (w', g') /\
    Gallery.galleryContainer g' = Some c /\
    parent_of (World.parents w') c = Some 1%N /\
    parent_of (World.parents (fst (destroy w' g'))) c = None.
Proof.
  destruct (@constructor float B64.sample 1 Sample.steady Sample.abc)
    as [[w' g']|] eqn:E.
  - destruct (@constructor_builds_dom float B64.sample 1 Sample.steady w'
                Sample.abc g' E) as (c & Hc & Hp & _ & _ & Hd & _).
    exists w', g', c. exact (conj eq_refl (conj Hc (conj Hp Hd))).
  - vm_compute in E. discriminate E.
Defined.

(** X13 at a sample. *)
Lemma elements_follow_config_style_sample :
  exists s0,
    @constructor float B64.sample 1 Sample.steady Sample.abc = Some s0 /\
    @styled float
      (snd (@run float B64.sample
              [Call_updateOpacity 0.5%float; AnimationFrame;
               WindowResized 600%float 800%float true; Call_updateBlur 2%float]
              s0)).
Proof.
  destruct (@constructor float B64.sample 1 Sample.steady Sample.abc)
    as [s0|] eqn:E.
  - exists s0. split; [reflexivity|].
    exact (proj1 (@elements_follow_config_style float B64.sample 1 Sample.steady
                    Sample.abc s0 _ E)).
  - vm_compute in E. discriminate E.
Defined.

(** X4 at a sample: scrolling before and after the window became narrow. *)
Lemma desktop_gallery_never_tracks_scroll_sample :
  exists s0,
    @constructor float B64.sample 1 Sample.steady Sample.abc = Some s0 /\
    Gallery.scrollY
      (snd (@run float B64.sample
              [Scrolled 120%float; WindowResized 600%float 800%float true;
               Scrolled 240%float; AnimationFrame] s0)) = 0%float.
Proof.
  destruct (@constructor float B64.sample 1 Sample.steady Sample.abc)
    as [s0|] eqn:E.
  - exists s0. split; [reflexivity|].
    exact (proj1 (@desktop_gallery_never_tracks_scroll float B64.sample 1
                    Sample.steady Sample.abc s0 _ eq_refl eq_refl eq_refl E)).
  - vm_compute in E. discriminate E.
Defined.

(** X5 at a sample: a tablet, the pointer moving before and after the
    window became wide. *)
Lemma mobile_gallery_never_tracks_pointer_sample :
  exists s0,
    @constructor float B64.sample 1 MobileSample.tablet Sample.abc = Some s0 /\
    Gallery.mouseX
      (snd (@run float B64.sample
              [MouseMoved 10%float 20%float;
               WindowResized 1024%float 768%float false;
               MouseMoved 30%float 40%float; AnimationFrame] s0))
    = (768 / 2)%float.
Proof.
  destruct (@constructor float B64.sample 1 MobileSample.tablet Sample.abc)
    as [s0|] eqn:E.
  - exists s0. split; [reflexivity|].
    exact (proj1 (@mobile_gallery_never_tracks_pointer float B64.sample 1
                    MobileSample.tablet Sample.abc s0 _ eq_refl eq_refl eq_refl E)).
  - vm_compute in E. discriminate E.
Defined.

(** X14 at a sample: paused after two frames. *)
Lemma paused_gallery_does_not_move_sample :
  exists s0,
    @constructor float B64.sample 1 Sample.steady Sample.abc = Some s0 /\
    let s := @run float B64.sample [AnimationFrame; AnimationFrame] s0 in
    Forall2 same_motion (Gallery.photos (snd s))
      (Gallery.photos
         (snd (@run float B64.sample
                 [AnimationFrame; MouseMoved 10%float 20%float; AnimationFrame;
                  Call_updateOpacity 0.5%float]
                 (pause (fst s) (snd s))))).
Proof.
  destruct (@constructor float B64.sample 1 Sample.steady Sample.abc)
    as [s0|] eqn:E.
  - exists s0. split; [reflexivity|].
    exact (@paused_gallery_does_not_move float B64.sample 1 Sample.steady
             Sample.abc s0 [AnimationFrame; AnimationFrame]
             [AnimationFrame; MouseMoved 10%float 20%float; AnimationFrame;
              Call_updateOpacity 0.5%float]
             eq_refl eq_refl eq_refl E eq_refl).
  - vm_compute in E. discriminate E.
Defined.

(** X15 at a sample: a gallery whose loop waits in the callback number
    [1]. *)
Lemma destroyed_gallery_can_be_restarted_sample :
  let destroyed :=
    @destroy float FrameSample.waiting FrameSample.running in
  let paused := pause (fst destroyed) (snd destroyed) in
  let resumed := @resume float Engine.number (fst paused) (snd paused) in
  @one_loop float (FrameSample.waiting, FrameSample.running) /\
  World.rafCallbacks FrameSample.waiting = [1%N] /\
  handle_truthy (Gallery.rafId FrameSample.running) = true /\
  World.rafCallbacks (fst destroyed) = [] /\
  Gallery.rafId (snd destroyed) = Some 1%N /\
  @resume float Engine.number (fst destroyed) (snd destroyed) = destroyed /\
  World.rafCallbacks (fst resumed) = [2%N] /\
  Gallery.rafId (snd resumed) = Some 2%N.
Proof.
  cbv zeta.
  assert (Hloop : @one_loop float (FrameSample.waiting, FrameSample.running)).
  { right. exists 1%N. split; [reflexivity|]. split; [reflexivity|].
    intros H. discriminate H. }
  destruct (@destroyed_gallery_can_be_restarted float Engine.number
              FrameSample.waiting FrameSample.running Hloop)
    as (Hstop & Hresume & _).
  split; [exact Hloop|]. split; [reflexivity|]. split; [reflexivity|].
  split; [exact Hstop|]. split; [reflexivity|].
  split; [exact (Hresume eq_refl)|]. split; reflexivity.
Defined.

(** X12 at a sample: a desktop gallery in a window that became a tablet's. *)
Lemma handleResize_redraws_on_mode_switch_sample :
  Gallery.isMobile (Sample.gallery false 0 0)
    <> World.matchesMobile MobileSample.tablet /\
  Gallery.isMobile
    (snd (@handleResize float B64.sample MobileSample.tablet
            (Sample.gallery false 0 0))) = true.
Proof.
  assert (H : Gallery.isMobile (Sample.gallery false 0 0)
              <> World.matchesMobile MobileSample.tablet)
    by (intros H; discriminate H).
  exact (conj H
           (proj1 (proj2 (@handleResize_redraws_on_mode_switch float B64.sample
                            MobileSample.tablet (Sample.gallery false 0 0)) H))).
Defined.

(** X8 at a sample: the particle in the corner is put on the left margin. *)
Lemma base_is_advance_clamped_sample :
  exists photo',
    nth_error (Gallery.photos
                 (snd (@animate float Engine.number Sample.desktop
                         (FrameSample.gallery false 900 700 0)))) 0
    = Some photo' /\
    (Photo.baseX FrameSample.corner + Photo.velocityX FrameSample.corner
     = 49.75)%float /\
    Photo.baseX photo' = 50%float /\ Photo.baseY photo' = 50%float.
Proof.
  destruct (base_is_advance_clamped Engine.sin B64.poly_cos Sample.desktop
              (FrameSample.gallery false 900 700 0) 0 FrameSample.corner
              eq_refl eq_refl eq_refl) as (p' & Hn & Hx & Hy).
  exists p'. split; [exact Hn|]. split; [reflexivity|].
  split; [rewrite Hx | rewrite Hy]; vm_compute; reflexivity.
Defined.
